(** * Dynamic dispatch registry ([prefect.utilities.dispatch]) and the
      filter validation contracts exercised by [tests/orion/schemas/test_filters.py].

    The registry functions are embedded from [src/prefect/utilities/dispatch.py].
    Python classes are opaque objects compared by identity; what the module
    reads from a class ([__name__], [mro()], the [__dispatch_key__] attribute)
    is collected in the [Classes] interface.  The module-level dictionary
    [_TYPE_REGISTRIES] is the state of a small state-and-exception monad. *)

From stdpp Require Import gmap strings list fin_maps pretty.

Module Dispatch.

(** ** Python values that can sit behind [__dispatch_key__] *)

(** What [getattr(x, "__dispatch_key__", None)] can evaluate to, as far as
    [get_dispatch_key] can tell values apart: [None], a [str], a callable
    (with the value its call without arguments returns), or a non-callable
    object of some other type.  Calls are taken to return normally and to
    leave the registry alone. *)
Inductive pyval : Type :=
  | PyNone
  | PyStr (s : string)
  | PyObj (type_name : string)
  | PyCallable (type_name : string) (result : pyval).

(** The argument [cls_or_instance]: a class, or an instance of a class
    (instances are told apart by [oid]). *)
Inductive pyobj (Cls : Type) : Type :=
  | ClassObj (c : Cls)
  | InstanceOf (c : Cls) (oid : nat).
Arguments ClassObj {Cls} c.
Arguments InstanceOf {Cls} c oid.

(** The part of the Python class model the module relies on. *)
Class Classes (Cls : Type) `{Countable Cls} : Type := {
  (** [cls.__name__] *)
  name : Cls → string;
  (** [cls.mro()], most derived class first *)
  mro : Cls → list Cls;
  (** the [__dispatch_key__] attribute as attribute lookup finds it on a
      class or an instance; [None] when the attribute is not defined *)
  dispatch_key_attr : pyobj Cls → option pyval;
}.

(** ** Exceptions *)

(** The messages the module formats, kept structured. *)
Inductive message (Cls : Type) : Type :=
  (** "Type {type_name!r} does not define a value for '__dispatch_key__'
      which is required for registry lookup." *)
  | msg_no_dispatch_key (type_name : string)
  (** "Type {type_name!r} has a '__dispatch_key__' of type {key_type} but a
      type of 'str' is required." *)
  | msg_dispatch_key_not_str (type_name key_type : string)
  (** "No registry found for type {cls_name!r} with bases {bases!r}." *)
  | msg_no_registry (cls_name : string) (bases : list Cls)
  (** "No class found in registry for dispatch key {dispatch_key!r}." *)
  | msg_no_class_for_key (dispatch_key : string)
  (** "'NoneType' object has no attribute 'get'", raised by the interpreter *)
  | msg_none_has_no_get.
Arguments msg_no_dispatch_key {Cls} type_name.
Arguments msg_dispatch_key_not_str {Cls} type_name key_type.
Arguments msg_no_registry {Cls} cls_name bases.
Arguments msg_no_class_for_key {Cls} dispatch_key.
Arguments msg_none_has_no_get {Cls}.

Inductive exn (Cls : Type) : Type :=
  | ValueError (m : message Cls)
  | TypeError (m : message Cls)
  | KeyError (m : message Cls)
  | AttributeError (m : message Cls).
Arguments ValueError {Cls} m.
Arguments TypeError {Cls} m.
Arguments KeyError {Cls} m.
Arguments AttributeError {Cls} m.

(** [isinstance(e, LookupError)]: of the exceptions above only [KeyError]
    derives from Python's [LookupError]. *)
Definition is_LookupError {Cls} (e : exn Cls) : bool :=
  match e with
  | KeyError _ => true
  | _ => false
  end.

(** ** The registry state *)

(** A dictionary key of a subregistry: the values [get_dispatch_key] can
    return, [None] or a [str]. *)
Abbreviation pykey := (option string) (only parsing).

(** A reference to one of the inner dictionaries.  Every inner dictionary is
    created by [setdefault(cls, {})] with a fresh [{}], so it is stored under
    exactly one class of [_TYPE_REGISTRIES]; the reference is that class, and
    writing through the reference updates the entry in place. *)
Inductive dictref (Cls : Type) : Type :=
  | RegistryOf (owner : Cls).
Arguments RegistryOf {Cls} owner.

Definition owner {Cls} (r : dictref Cls) : Cls :=
  match r with RegistryOf c => c end.

(** [_TYPE_REGISTRIES: Dict[Type, Dict[str, Type]]] *)
Abbreviation registries Cls := (gmap Cls (gmap pykey Cls)).

Section registry.
Context {Cls : Type} `{Countable Cls}.
Implicit Types (R : registries Cls).

(** Computations over [_TYPE_REGISTRIES] that may raise: the final state is
    returned also when an exception is raised. *)
Definition M (A : Type) : Type :=
  registries Cls → registries Cls * (exn Cls + A).

Definition ret {A} (a : A) : M A := λ R, (R, inr a).
Definition raise {A} (e : exn Cls) : M A := λ R, (R, inl e).
Definition bind {A B} (m : M A) (k : A → M B) : M B :=
  λ R, match m R with
       | (R', inl e) => (R', inl e)
       | (R', inr a) => k a R'
       end.
Definition lift {A} (r : exn Cls + A) : M A := λ R, (R, r).
Definition gets {A} (f : registries Cls → A) : M A := λ R, (R, inr (f R)).
Definition modify (f : registries Cls → registries Cls) : M unit :=
  λ R, (f R, inr tt).

(** final state and outcome of a computation *)
Definition state_of {A} (x : registries Cls * (exn Cls + A)) : registries Cls := x.1.
Definition outcome {A} (x : registries Cls * (exn Cls + A)) : exn Cls + A := x.2.
End registry.
Arguments M Cls {_ _} A.

Declare Scope py_scope.
Delimit Scope py_scope with py.
Notation "'let!' x ':=' m 'in' k" := (bind m (λ x, k))
  (at level 10, x name, m at level 100, k at level 200,
   format "'[v' 'let!'  x  ':='  m  'in'  '/' k ']'") : py_scope.
Open Scope py_scope.

Section dispatch.
Context {Cls : Type} `{Countable Cls} `{!Classes Cls}.
Implicit Types (R : registries Cls) (cls : Cls).

(** *** Dictionary primitives *)

(** [_TYPE_REGISTRIES.get(cls)] *)
Definition TYPE_REGISTRIES_get R cls : option (dictref Cls) :=
  match R !! cls with
  | Some _ => Some (RegistryOf cls)
  | None => None
  end.

(** [_TYPE_REGISTRIES.setdefault(cls, {})] *)
Definition TYPE_REGISTRIES_setdefault (cls : Cls) : M Cls (dictref Cls) :=
  λ R, match R !! cls with
       | Some _ => (R, inr (RegistryOf cls))
       | None => (<[cls := ∅]> R, inr (RegistryOf cls))
       end.

(** [registry.get(key)] *)
Definition dict_get (registry : dictref Cls) (key : pykey) : M Cls (option Cls) :=
  gets (λ R, R !! owner registry ≫= λ d, d !! key).

(** [registry[key] = value]; a reference always comes from an entry of
    [_TYPE_REGISTRIES], and entries are never removed, so the entry is there. *)
Definition dict_setitem (registry : dictref Cls) (key : pykey) (value : Cls) : M Cls unit :=
  modify (alter (<[key := value]>) (owner registry)).

(** *** [get_registry_for_type] *)

Definition get_registry_for_type (cls : Cls) : M Cls (option (dictref Cls)) :=
  gets (λ R, head (omap (TYPE_REGISTRIES_get R) (mro cls))).

(** *** [get_dispatch_key] *)

Definition getattr_dispatch_key (o : pyobj Cls) (dflt : pyval) : pyval :=
  default dflt (dispatch_key_attr o).

Definition is_none (v : pyval) : bool :=
  match v with PyNone => true | _ => false end.

(** [callable(v)] *)
Definition callable (v : pyval) : bool :=
  match v with PyCallable _ _ => true | _ => false end.

(** [v()], for a callable [v] *)
Definition call (v : pyval) : pyval :=
  match v with PyCallable _ result => result | _ => v end.

(** [type(v).__name__] *)
Definition type_name_of (v : pyval) : string :=
  match v with
  | PyNone => "NoneType"
  | PyStr _ => "str"
  | PyObj t => t
  | PyCallable t _ => t
  end.

(** [cls_or_instance.__name__] for a class, [type(cls_or_instance).__name__]
    for an instance *)
Definition type_name_for (o : pyobj Cls) : string :=
  match o with
  | ClassObj c => name c
  | InstanceOf c _ => name c
  end.

Definition get_dispatch_key (cls_or_instance : pyobj Cls) (allow_missing : bool)
  : exn Cls + option string :=
  let dispatch_key := getattr_dispatch_key cls_or_instance PyNone in
  let type_name := type_name_for cls_or_instance in
  if is_none dispatch_key then
    if allow_missing then inr None
    else inl (ValueError (msg_no_dispatch_key type_name))
  else
    let dispatch_key :=
      if callable dispatch_key then call dispatch_key else dispatch_key in
    if allow_missing && is_none dispatch_key then inr None
    else
      match dispatch_key with
      | PyStr s => inr (Some s)
      | v => inl (TypeError (msg_dispatch_key_not_str type_name (type_name_of v)))
      end.

(** The dispatch key of an object once resolved: the attribute ([None] when
    it is not defined), or what it returns when it is callable. *)
Definition resolved_dispatch_key (o : pyobj Cls) : pyval :=
  let v := getattr_dispatch_key o PyNone in
  if callable v then call v else v.

(** *** [register_base_type] *)

Definition register_base_type cls : M Cls Cls :=
  let! registry := TYPE_REGISTRIES_setdefault cls in
  let! base_key := lift (get_dispatch_key (ClassObj cls) true) in
  let! _ :=
    match base_key with
    | Some k => dict_setitem registry (Some k) cls
    | None => ret tt
    end in
  ret cls.

(** *** [register_type] *)

Definition register_type cls : M Cls Cls :=
  let! registry := get_registry_for_type cls in
  match registry with
  | None => raise (ValueError (msg_no_registry (name cls) (mro cls)))
  | Some registry =>
      let! key := lift (get_dispatch_key (ClassObj cls) false) in
      let! _ := dict_setitem registry key cls in
      ret cls
  end.

(** *** [lookup_type] *)

(** [registry.get(dispatch_key)] is evaluated on whatever
    [get_registry_for_type] returned; on [None] the interpreter raises
    [AttributeError]. *)
Definition lookup_type cls (dispatch_key : string) : M Cls Cls :=
  let! registry := get_registry_for_type cls in
  match registry with
  | None => raise (AttributeError msg_none_has_no_get)
  | Some registry =>
      let! subcls := dict_get registry (Some dispatch_key) in
      match subcls with
      | None => raise (KeyError (msg_no_class_for_key dispatch_key))
      | Some subcls => ret subcls
      end
  end.
(** *** Histories of [_TYPE_REGISTRIES] *)

(** The values [_TYPE_REGISTRIES] can take: [{}] when the module is imported,
    then whatever a call of one of the two registration functions leaves
    behind, whether it returns or raises ([get_registry_for_type],
    [get_dispatch_key] and [lookup_type] only read). *)
Inductive reachable : registries Cls → Prop :=
  | reachable_import : reachable ∅
  | reachable_register_base_type R cls :
      reachable R → reachable (state_of (register_base_type cls R))
  | reachable_register_type R cls :
      reachable R → reachable (state_of (register_type cls R)).

(** What the registration functions keep true of every entry [key ↦ c] in
    the subregistry of [base]: the key is a [str], it is the dispatch key of
    [c], and [base] is among the classes of [mro(c)]. *)
Definition entry_ok (base : Cls) (key : pykey) (c : Cls) : Prop :=
  ∃ k, key = Some k
       ∧ get_dispatch_key (ClassObj c) false = inr (Some k)
       ∧ base ∈ mro c.

Definition registry_ok R : Prop :=
  ∀ base d key c, R !! base = Some d → d !! key = Some c → entry_ok base key c.
End dispatch.

End Dispatch.

(** ** A small class hierarchy

    The classes of the module docstring ([Base] with a [classmethod] that
    returns the lower-cased class name, [Foo(Base)]) and a few more, used to
    run the functions on concrete inputs:
<<
    class Base:                         class Plain: ...
        @classmethod                    class BadKey: __dispatch_key__ = 5
        def __dispatch_key__(cls):      class Lazy:
            return cls.__name__.lower()     @classmethod
    class Foo(Base): ...                    def __dispatch_key__(cls): return None
    class Mid(Base): ...                class Named(Plain): __dispatch_key__ = "named"
    class Leaf(Mid): ...
>> *)
Module Demo.
Import Dispatch.

Inductive cls : Set :=
  | object | Base | Foo | Mid | Leaf | Plain | BadKey | Lazy | Named.

#[global] Instance cls_eq_dec : EqDecision cls.
Proof. solve_decision. Defined.

Definition cls_to_nat (c : cls) : nat :=
  match c with
  | object => 0 | Base => 1 | Foo => 2 | Mid => 3 | Leaf => 4
  | Plain => 5 | BadKey => 6 | Lazy => 7 | Named => 8
  end.

Definition cls_of_nat (n : nat) : cls :=
  match n with
  | 1 => Base | 2 => Foo | 3 => Mid | 4 => Leaf
  | 5 => Plain | 6 => BadKey | 7 => Lazy | 8 => Named | _ => object
  end.

#[global] Instance cls_countable : Countable cls.
Proof. apply (inj_countable' cls_to_nat cls_of_nat). by intros []. Defined.

Definition cls_name (c : cls) : string :=
  match c with
  | object => "object" | Base => "Base" | Foo => "Foo" | Mid => "Mid"
  | Leaf => "Leaf" | Plain => "Plain" | BadKey => "BadKey" | Lazy => "Lazy"
  | Named => "Named"
  end.

Definition cls_mro (c : cls) : list cls :=
  match c with
  | object => [object]
  | Base => [Base; object]
  | Foo => [Foo; Base; object]
  | Mid => [Mid; Base; object]
  | Leaf => [Leaf; Mid; Base; object]
  | Plain => [Plain; object]
  | BadKey => [BadKey; object]
  | Lazy => [Lazy; object]
  | Named => [Named; Plain; object]
  end.

Definition cls_dispatch_key (c : cls) : option pyval :=
  match c with
  | object | Plain => None
  | Base => Some (PyCallable "method" (PyStr "base"))
  | Foo => Some (PyCallable "method" (PyStr "foo"))
  | Mid => Some (PyCallable "method" (PyStr "mid"))
  | Leaf => Some (PyCallable "method" (PyStr "leaf"))
  | BadKey => Some (PyObj "int")
  | Lazy => Some (PyCallable "method" PyNone)
  | Named => Some (PyStr "named")
  end.

#[global] Instance demo_classes : Classes cls := {|
  name := cls_name;
  mro := cls_mro;
  dispatch_key_attr o :=
    match o with
    | ClassObj c => cls_dispatch_key c
    | InstanceOf c _ => cls_dispatch_key c
    end;
|}.

(** [_TYPE_REGISTRIES] after [register_base_type(Base)] and
    [register_base_type(Mid)] on an empty registry. *)
Definition two_bases : registries cls :=
  state_of (register_base_type Mid (state_of (register_base_type Base ∅))).

End Demo.

(** ** A flat hierarchy with an inherited key

    A base that sets [__dispatch_key__] as a plain class attribute and
    subclasses that do not override it, so that attribute lookup finds the
    same string on each of them:
<<
    object                                        # class 0
    class Shape: __dispatch_key__ = "shape"       # class 1
    class Shape2(Shape): ...                      # class 2
    class Shape3(Shape): ...                      # class 3, and so on
>> *)
Module Flat.
Import Dispatch.

Definition flat_name (c : nat) : string :=
  match c with
  | 0 => "object"
  | 1 => "Shape"
  | _ => "Shape" +:+ pretty c
  end.

Definition flat_mro (c : nat) : list nat :=
  match c with
  | 0 => [0]
  | 1 => [1; 0]
  | _ => [c; 1; 0]
  end.

Definition flat_dispatch_key (c : nat) : option pyval :=
  match c with
  | 0 => None
  | _ => Some (PyStr "shape")
  end.

Definition flat_classes : Classes nat := {|
  name := flat_name;
  mro := flat_mro;
  dispatch_key_attr o :=
    match o with
    | ClassObj c => flat_dispatch_key c
    | InstanceOf c _ => flat_dispatch_key c
    end;
|}.

End Flat.

(** ** Composite filters

    The tests construct subclasses of [filters.PrefectFilterBaseModel]; the
    module [prefect.orion.schemas.filters] that defines them and their
    validators is not among the sources, so the validator is written down
    from the specification (section 4.2). *)
Module Filters.

(** Modelled from the spec: the production module
    [prefect.orion.schemas.filters] is missing; this is the value a
    constraint field can hold (a number, a flag, an inclusion list, a
    timestamp as an instant on the time line). *)
Inductive value : Type :=
  | VInt (n : Z)
  | VBool (b : bool)
  | VList (items : list string)
  | VTime (t : Z).

(** Modelled from the spec: the missing filter classes carry "a set of named
    optional constraint fields"; a field that is null or absent has no
    entry. *)
Abbreviation fields := (gmap string value).

(** Modelled from the spec: the missing per-type validators, as rule
    instances on pairs of fields ("exclusive operator vs is-null" on an
    inclusion field and an is-null field, "ordered range" on a before field
    and an after field). *)
Inductive rule : Type :=
  | Exclusive (inclusion is_null : string)
  | OrderedRange (before after : string).

(** Modelled from the spec: the part a constraint field of the missing
    filter classes plays in its filter type: an inclusion operator (an "all
    of" or "any of" list), an "is-null" flag, the "before" or the "after"
    bound of a timestamp pair, or any other operator. *)
Inductive kind : Type :=
  | Plain
  | Inclusion
  | IsNull
  | Before
  | After.

#[global] Instance kind_eq_dec : EqDecision kind.
Proof. solve_decision. Defined.

(** Modelled from the spec: a concrete filter type of the missing module:
    its name, its recognized constraint fields, and the part each field
    name plays. *)
Record filter_type : Type := {
  type_name : string;
  operators : list string;
  kind_of : string → kind;
}.

(** Modelled from the spec: the recognized fields a missing filter type
    declares for one part. *)
Definition fields_of_kind (T : filter_type) (K : kind) : list string :=
  filter (λ f, kind_of T f = K) (operators T).

(** Modelled from the spec: the rule instances of a missing filter type
    follow from the fields it declares: "for filter types that define both
    an inclusion operator and an is-null flag" the exclusive rule on the two,
    "for filter types that define a before and after timestamp pair" the
    ordered-range rule on the two. *)
Definition rules (T : filter_type) : list rule :=
  flat_map (λ i, Exclusive i <$> fields_of_kind T IsNull)
           (fields_of_kind T Inclusion)
  ++ flat_map (λ b, OrderedRange b <$> fields_of_kind T After)
              (fields_of_kind T Before).

(** Modelled from the spec: what the missing validators report, one entry
    per violated rule ("Prefect Filter must have at least one operator with
    arguments", "Cannot provide ... all_ with is_null_ = True", "... where
    before_ is less than after_"). *)
Inductive violation : Type :=
  | NoOperator
  | InclusionWithIsNull (inclusion is_null : string)
  | BeforeLessThanAfter (before after : string).

(** Modelled from the spec: the [ValidationError] the missing constructors
    raise, "with a message identifying the concrete filter type name and the
    violated rule". *)
Inductive error : Type :=
  | ValidationError (filter_type_name : string) (violated : list violation).

(** Modelled from the spec: a constructed filter of the missing module
    (immutable once constructed). *)
Record filter : Type := {
  filter_type_of : filter_type;
  filter_fields : fields;
}.

(** Modelled from the spec: the missing test "field is set", that is
    non-null. *)
Definition is_set (v : fields) (f : string) : bool :=
  match v !! f with
  | Some _ => true
  | None => false
  end.

(** Modelled from the spec: the missing "at least one operator" validator:
    "if every recognized constraint field is null/absent, fail". *)
Definition check_at_least_one_operator (T : filter_type) (v : fields) : list violation :=
  if existsb (is_set v) (operators T) then [] else [NoOperator].

(** Modelled from the spec: the missing validators of the two opt-in rules:
    "fail if both are simultaneously set", whatever the inclusion list
    holds; "fail if both are set and before < after (strict)". *)
Definition check_rule (v : fields) (r : rule) : list violation :=
  match r with
  | Exclusive inclusion is_null =>
      if is_set v inclusion && is_set v is_null
      then [InclusionWithIsNull inclusion is_null] else []
  | OrderedRange before after =>
      match v !! before, v !! after with
      | Some (VTime tb), Some (VTime ta) =>
          if (tb <? ta)%Z then [BeforeLessThanAfter before after] else []
      | _, _ => []
      end
  end.

(** Modelled from the spec: the missing validation pass; the rules are "all
    evaluated together at construction". *)
Definition validate (T : filter_type) (v : fields) : list violation :=
  check_at_least_one_operator T v ++ flat_map (check_rule v) (rules T).

(** Modelled from the spec: the missing constructor of a filter type. *)
Definition construct (T : filter_type) (v : fields) : error + filter :=
  match validate T v with
  | [] => inr {| filter_type_of := T; filter_fields := v |}
  | violated => inl (ValidationError (type_name T) violated)
  end.

(** Modelled from the spec: a rule instance of the missing declarations is
    well formed when it names two different recognized fields of its filter
    type. *)
Definition wf_rule (T : filter_type) (r : rule) : bool :=
  match r with
  | Exclusive f g | OrderedRange f g =>
      bool_decide (f ∈ operators T) && bool_decide (g ∈ operators T)
      && bool_decide (f ≠ g)
  end.

(** Modelled from the spec: well-formed declarations of the missing filter
    types. *)
Definition wf (T : filter_type) : bool := forallb (wf_rule T) (rules T).

(** Modelled from the spec: the field names of the missing module, as the
    tests use them ([all_], [any_], [is_null_], [before_], [after_]); any
    other field is a plain operator. *)
Definition kind_by_name (f : string) : kind :=
  if (f =? "all_")%string then Inclusion
  else if (f =? "any_")%string then Inclusion
  else if (f =? "is_null_")%string then IsNull
  else if (f =? "before_")%string then Before
  else if (f =? "after_")%string then After
  else Plain.

(** The filter types of the tests, with the fields the tests set. *)
Definition MyNewFilter : filter_type :=
  {| type_name := "MyNewFilter"; operators := ["foo_"; "bar_"];
     kind_of := kind_by_name |}.

Definition FlowFilterTags : filter_type :=
  {| type_name := "FlowFilterTags"; operators := ["all_"; "is_null_"];
     kind_of := kind_by_name |}.

Definition FlowRunFilterDeploymentIds : filter_type :=
  {| type_name := "FlowRunFilterDeploymentIds"; operators := ["any_"; "is_null_"];
     kind_of := kind_by_name |}.

Definition FlowRunFilterStartTime : filter_type :=
  {| type_name := "FlowRunFilterStartTime"; operators := ["before_"; "after_"];
     kind_of := kind_by_name |}.

(** A filter type that declares a timestamp pair next to an inclusion
    operator and an is-null flag. *)
Definition TaggedRangeFilter : filter_type :=
  {| type_name := "TaggedRangeFilter";
     operators := ["all_"; "is_null_"; "before_"; "after_"];
     kind_of := kind_by_name |}.

(** seconds in a day, for [pendulum.now("UTC").add(days=1)] *)
Definition one_day : Z := 86400.

End Filters.

(** * Properties of the dispatch registry *)
Module DispatchFacts.
Import Dispatch.

Section facts.
Context {Cls : Type} `{Countable Cls} `{!Classes Cls}.
Implicit Types (R : registries Cls) (sub base cls : Cls) (d : gmap (option string) Cls).

(** Python's linearization puts a class first in its own [mro()]. *)
Hypothesis mro_self : ∀ cls, head (mro cls) = Some cls.

(** *** The search along the MRO *)

Lemma omap_get_unregistered R (l : list Cls) :
  (∀ c, c ∈ l → R !! c = None) → omap (TYPE_REGISTRIES_get R) l = [].
Proof.
  induction l as [|c l IH]; intros Hl; [done|].
  cbn. unfold TYPE_REGISTRIES_get at 1.
  rewrite (Hl c) by left. apply IH. intros c' Hc'. apply Hl. by right.
Qed.

Lemma get_registry_for_type_none R cls :
  (∀ c, c ∈ mro cls → R !! c = None) →
  get_registry_for_type cls R = (R, inr None).
Proof.
  intros Hnone. unfold get_registry_for_type, gets.
  by rewrite omap_get_unregistered.
Qed.

Lemma get_registry_for_type_first R cls base (l1 l2 : list Cls) :
  mro cls = l1 ++ base :: l2 →
  (∀ c, c ∈ l1 → R !! c = None) →
  is_Some (R !! base) →
  get_registry_for_type cls R = (R, inr (Some (RegistryOf base))).
Proof.
  intros Hmro Hl1 [d Hd]. unfold get_registry_for_type, gets.
  rewrite Hmro, omap_app, omap_get_unregistered by done.
  cbn. unfold TYPE_REGISTRIES_get at 1. by rewrite Hd.
Qed.

Lemma get_registry_for_type_self R base :
  is_Some (R !! base) →
  get_registry_for_type base R = (R, inr (Some (RegistryOf base))).
Proof.
  intros Hd. pose proof (mro_self base) as Hhead.
  destruct (mro base) as [|c l] eqn:Hmro; [done|].
  injection Hhead as ->.
  apply (get_registry_for_type_first R base base [] l); [done| |done].
  intros c Hc. by apply elem_of_nil in Hc.
Qed.

(** [lookup_type] once the subregistry it reads is known. *)
Lemma lookup_type_in R cls base d (key : string) :
  get_registry_for_type cls R = (R, inr (Some (RegistryOf base))) →
  R !! base = Some d →
  lookup_type cls key R =
    (R, match d !! Some key with
        | Some subcls => inr subcls
        | None => inl (KeyError (msg_no_class_for_key key))
        end).
Proof.
  intros Hreg Hd. unfold lookup_type, bind. rewrite Hreg.
  unfold dict_get, gets. cbn. rewrite Hd. cbn.
  by destruct (d !! Some key).
Qed.

(** *** [get_dispatch_key] on a class whose key is a string *)

Lemma get_dispatch_key_strict_not_none (o : pyobj Cls) :
  get_dispatch_key o false ≠ inr None.
Proof.
  unfold get_dispatch_key.
  destruct (is_none _); [done|]. cbn.
  by destruct (if callable _ then _ else _).
Qed.

(** A failed [register_type] leaves [_TYPE_REGISTRIES] as it was: both
    checks come before the store. *)
Lemma register_type_failure_no_mutation R cls (e : exn Cls) :
  outcome (register_type cls R) = inl e →
  state_of (register_type cls R) = R.
Proof.
  unfold register_type, bind, get_registry_for_type, gets, lift.
  destruct (head _) as [r|]; [|done].
  by destruct (get_dispatch_key _ _).
Qed.

(** [register_type] never adds or removes a subregistry. *)
Lemma register_type_dom R cls :
  dom (state_of (register_type cls R)) = dom R.
Proof.
  unfold register_type, bind, get_registry_for_type, gets, lift.
  destruct (head _) as [r|]; [|done].
  destruct (get_dispatch_key _ _) as [e|key]; [done|].
  unfold dict_setitem, modify, state_of. simpl. apply dom_alter_L.
Qed.

(** Writing through a reference replaces the stored dictionary. *)
Lemma alter_stored R base d (f : gmap (option string) Cls → gmap (option string) Cls) :
  R !! base = Some d → alter f base R = <[base := f d]> R.
Proof.
  intros Hd. apply map_eq. intros c.
  rewrite lookup_alter, lookup_insert. case_decide; [subst|done].
  by rewrite Hd.
Qed.

(** What [register_base_type] does when the key of the class resolves. *)
Lemma register_base_type_eq R base (key : option string) :
  get_dispatch_key (ClassObj base) true = inr key →
  register_base_type base R =
    (<[base := match key with
               | Some k => <[Some k := base]> (default ∅ (R !! base))
               | None => default ∅ (R !! base)
               end]> R,
     inr base).
Proof.
  intros Hkey.
  unfold register_base_type, bind, TYPE_REGISTRIES_setdefault, lift.
  rewrite Hkey.
  destruct (R !! base) as [d|] eqn:Hd, key as [k|];
    unfold dict_setitem, modify, ret; cbn.
  - by rewrite (alter_stored R base d).
  - by rewrite insert_id.
  - by rewrite alter_insert_eq.
  - done.
Qed.

(** C6: when no class of [mro(cls)], [cls] included, has a subregistry,
    [register_type(cls)] raises the "No registry found" [ValueError];
    [_TYPE_REGISTRIES] is left as it was, so no subregistry exists for [cls]
    afterwards either. *)
Theorem register_type_without_registry R cls :
  R !! cls = None →
  (∀ c, c ∈ mro cls → R !! c = None) →
  register_type cls R =
    (R, inl (ValueError (msg_no_registry (name cls) (mro cls))))
  ∧ state_of (register_type cls R) !! cls = None.
Proof.
  intros Hcls Hnone.
  assert (register_type cls R =
    (R, inl (ValueError (msg_no_registry (name cls) (mro cls))))) as Heq.
  { unfold register_type, bind.
    by rewrite get_registry_for_type_none. }
  by rewrite Heq.
Qed.

(** C10: when [base] is the first class of [mro(sub)] that has a
    subregistry, [lookup_type(sub, key)] and [lookup_type(base, key)] read
    the same subregistry and have the same outcome for every key. *)
Theorem lookup_type_via_first_registry R sub base (l1 l2 : list Cls) :
  mro sub = l1 ++ base :: l2 →
  (∀ c, c ∈ l1 → R !! c = None) →
  is_Some (R !! base) →
  get_registry_for_type sub R = get_registry_for_type base R
  ∧ ∀ key : string, lookup_type sub key R = lookup_type base key R.
Proof.
  intros Hmro Hl1 Hbase.
  pose proof (get_registry_for_type_first R sub base l1 l2 Hmro Hl1 Hbase) as Hsub.
  pose proof (get_registry_for_type_self R base Hbase) as Hself.
  split; [by rewrite Hsub, Hself|].
  intros key. destruct Hbase as [d Hd].
  by rewrite (lookup_type_in R sub base d), (lookup_type_in R base base d).
Qed.

(** C1 (amended): when [base] is the first class of [mro(sub)] that has a
    subregistry and the dispatch key of [sub] is the string [k],
    [register_type(sub)] returns [sub] and stores it under [k] in the
    subregistry of [base], so that [lookup_type(base, k)] then returns
    [sub]. *)
Theorem register_type_then_lookup R sub base (l1 l2 : list Cls) d (k : string) :
  mro sub = l1 ++ base :: l2 →
  (∀ c, c ∈ l1 → R !! c = None) →
  R !! base = Some d →
  get_dispatch_key (ClassObj sub) false = inr (Some k) →
  let R' := <[base := <[Some k := sub]> d]> R in
  register_type sub R = (R', inr sub)
  ∧ lookup_type base k R' = (R', inr sub).
Proof.
  intros Hmro Hl1 Hd Hkey R'. split.
  - unfold register_type, bind.
    rewrite (get_registry_for_type_first R sub base l1 l2) by done.
    unfold lift. rewrite Hkey.
    unfold dict_setitem, modify, ret; cbn.
    by rewrite (alter_stored R base d).
  - assert (R' !! base = Some (<[Some k := sub]> d)) as Hd'
      by apply lookup_insert_eq.
    rewrite (lookup_type_in R' base base (<[Some k := sub]> d)).
    + by rewrite lookup_insert_eq.
    + apply get_registry_for_type_self. by rewrite Hd'.
    + done.
Qed.

(** C2 (amended): when the dispatch key of [base] resolves to a string or
    to null, [register_base_type(base)] returns [base] and a subregistry
    exists for [base] afterwards; the subregistry [base] had, or an empty one
    when it had none, is kept entry for entry, except that with a string key
    [k] the entry under [k] becomes [base], so that [lookup_type(base, k)]
    then returns [base]; with no key nothing is inserted; other
    subregistries are untouched; and a second call changes nothing.  When
    the resolved key is neither null nor a string, the call raises the
    [TypeError] of [get_dispatch_key]. *)
Theorem register_base_type_ok R base :
  (∀ key : option string,
     get_dispatch_key (ClassObj base) true = inr key →
     let R1 := state_of (register_base_type base R) in
     outcome (register_base_type base R) = inr base
     ∧ R1 = <[base := match key with
                      | Some k => <[Some k := base]> (default ∅ (R !! base))
                      | None => default ∅ (R !! base)
                      end]> R
     ∧ is_Some (R1 !! base)
     ∧ (∀ k : string, key = Some k → lookup_type base k R1 = (R1, inr base))
     ∧ (∀ d (k' : option string), R !! base = Some d → k' ≠ key →
        R1 !! base ≫= (λ d1, d1 !! k') = d !! k')
     ∧ (key = None →
        R1 = match R !! base with Some _ => R | None => <[base := ∅]> R end)
     ∧ (∀ c, c ≠ base → R1 !! c = R !! c)
     ∧ register_base_type base R1 = (R1, inr base))
  ∧ (∀ v : pyval,
       resolved_dispatch_key (ClassObj base) = v →
       v ≠ PyNone →
       (∀ s, v ≠ PyStr s) →
       outcome (register_base_type base R)
       = inl (TypeError (msg_dispatch_key_not_str (name base) (type_name_of v)))).
Proof.
  split.
  - intros key Hkey R1. unfold R1.
    rewrite (register_base_type_eq R base key Hkey). unfold state_of, outcome.
    cbn [fst snd]. clear R1.
    set (d1 := match key with
               | Some k => <[Some k := base]> (default ∅ (R !! base))
               | None => default ∅ (R !! base)
               end).
    assert (<[base := d1]> R !! base = Some d1) as Hd1 by apply lookup_insert_eq.
    split; [done|]. split; [done|]. split; [by rewrite Hd1|].
    split; [|split; [|split; [|split]]].
    + intros k ->.
      rewrite (lookup_type_in _ base base d1);
        [|by apply get_registry_for_type_self; rewrite Hd1|done].
      unfold d1. by rewrite lookup_insert_eq.
    + intros d k' Hd Hk'. rewrite Hd1. cbn. unfold d1. rewrite Hd. cbn.
      destruct key as [k|]; [|done]. by rewrite lookup_insert_ne.
    + intros ->. unfold d1.
      destruct (R !! base) as [d|] eqn:Hd; cbn; [by apply insert_id|done].
    + intros c Hc. by rewrite lookup_insert_ne.
    + rewrite (register_base_type_eq _ base key Hkey). rewrite Hd1. cbn.
      f_equal. rewrite insert_insert_eq. f_equal.
      unfold d1. destruct key as [k|]; [|done].
      by rewrite insert_insert_eq.
  - intros v <- Hnone Hstr.
    unfold register_base_type, bind, TYPE_REGISTRIES_setdefault, lift, outcome.
    assert (get_dispatch_key (ClassObj base) true
            = inl (TypeError (msg_dispatch_key_not_str (name base)
                     (type_name_of (resolved_dispatch_key (ClassObj base))))))
      as ->.
    { revert Hnone Hstr.
      unfold get_dispatch_key, resolved_dispatch_key, getattr_dispatch_key.
      destruct (dispatch_key_attr (ClassObj base)) as [[|s| |t [|s| |]]|];
        cbn; intros Hnone Hstr; try done; by destruct (Hstr s). }
    by destruct (R !! base).
Qed.

(** C5 (amended): when the resolved dispatch key of a class or instance is
    null, [get_dispatch_key] returns [None] with [allow_missing=True]; with
    [allow_missing=False] it raises, the "does not define a value"
    [ValueError] when the attribute itself is absent or [None], and the
    "type of 'str' is required" [TypeError] when the attribute is a
    callable that returned [None]. *)
Theorem get_dispatch_key_null (o : pyobj Cls) :
  resolved_dispatch_key o = PyNone →
  get_dispatch_key o true = inr None
  ∧ get_dispatch_key o false =
      inl (match dispatch_key_attr o with
           | None | Some PyNone =>
               ValueError (msg_no_dispatch_key (type_name_for o))
           | Some _ =>
               TypeError (msg_dispatch_key_not_str (type_name_for o) "NoneType")
           end).
Proof.
  unfold resolved_dispatch_key, get_dispatch_key, getattr_dispatch_key.
  destruct (dispatch_key_attr o) as [[| | |t r]|]; cbn; try done.
  by intros ->.
Qed.

(** Without any subregistry along the MRO, [lookup_type] calls [.get] on
    [None]. *)
Lemma lookup_type_no_registry R cls (key : string) :
  (∀ c, c ∈ mro cls → R !! c = None) →
  lookup_type cls key R = (R, inl (AttributeError msg_none_has_no_get)).
Proof.
  intros Hnone. unfold lookup_type, bind.
  by rewrite get_registry_for_type_none.
Qed.

End facts.

(** ** The functions on the classes of [Demo] *)
Import Demo.

Lemma demo_mro_self : ∀ c : cls, head (mro c) = Some c.
Proof. by intros []. Qed.

(** [x ∈ [a; b; ...]] in a hypothesis: one goal per element. *)
Ltac each_member H :=
  repeat (apply elem_of_cons in H as [->|H]; [try reflexivity|]);
  try (by apply elem_of_nil in H).

(** [_TYPE_REGISTRIES] after [register_type(Leaf)] on [two_bases]: [Leaf] is
    stored in the subregistry of [Mid] and has none of its own. *)
Lemma leaf_registered :
  state_of (register_type Leaf two_bases)
  = <[Mid := <[Some "leaf" := Leaf]> {[Some "mid" := Mid]}]> two_bases.
Proof. by vm_compute. Qed.

(** [Plain] on [two_bases]: neither [Plain] nor [object] has a subregistry. *)
Lemma register_type_without_registry_witness :
  register_type Plain two_bases =
    (two_bases, inl (ValueError (msg_no_registry "Plain" [Plain; object])))
  ∧ state_of (register_type Plain two_bases) !! Plain = None.
Proof.
  refine (register_type_without_registry two_bases Plain _ _); [reflexivity|].
  intros c Hc. cbn in Hc. each_member Hc.
Defined.

(** [Leaf], registered under [Mid] only through [register_type], against
    [Mid]. *)
Lemma lookup_type_via_first_registry_witness :
  let R := state_of (register_type Leaf two_bases) in
  R !! Leaf = None
  ∧ get_registry_for_type Leaf R = get_registry_for_type Mid R
  ∧ ∀ key : string, lookup_type Leaf key R = lookup_type Mid key R.
Proof.
  intros R. split; [reflexivity|].
  refine (lookup_type_via_first_registry demo_mro_self R Leaf Mid
            [Leaf] [Base; object] _ _ _).
  - reflexivity.
  - intros c Hc. each_member Hc.
  - eexists. vm_compute. reflexivity.
Defined.

(** [register_type(Leaf)] on [two_bases], where [Mid] is the nearest base. *)
Lemma register_type_then_lookup_witness :
  let R' := <[Mid := <[Some "leaf" := Leaf]> {[Some "mid" := Mid]}]> two_bases in
  register_type Leaf two_bases = (R', inr Leaf)
  ∧ lookup_type Mid "leaf" R' = (R', inr Leaf).
Proof.
  refine (register_type_then_lookup demo_mro_self two_bases Leaf Mid
            [Leaf] [Base; object] {[Some "mid" := Mid]} "leaf" _ _ _ _).
  - reflexivity.
  - intros c Hc. each_member Hc.
  - reflexivity.
  - reflexivity.
Defined.

(** C1, as stated, fails: [Leaf] is a subtype of [Base], [Base] has a
    subregistry and the key of [Leaf] is ["leaf"], but [Mid], nearer to
    [Leaf], has a subregistry too; [register_type(Leaf)] stores [Leaf] there
    and [lookup_type(Base, "leaf")] raises [KeyError]. *)
Lemma register_type_nearest_base_counterexample :
  Base ∈ mro Leaf
  ∧ is_Some (two_bases !! Base)
  ∧ get_dispatch_key (ClassObj Leaf) false = inr (Some "leaf")
  ∧ outcome (register_type Leaf two_bases) = inr Leaf
  ∧ outcome (lookup_type Base "leaf" (state_of (register_type Leaf two_bases)))
    = inl (KeyError (msg_no_class_for_key "leaf"))
  ∧ outcome (lookup_type Base "leaf" (state_of (register_type Leaf two_bases)))
    ≠ inr Leaf.
Proof.
  split; [cbn; set_solver|].
  split; [eexists; vm_compute; reflexivity|].
  by repeat split.
Qed.

(** [register_base_type(Mid)] once [Leaf] is in the subregistry of [Mid]:
    [Leaf] stays; and [register_base_type(BadKey)], whose key is an [int]. *)
Lemma register_base_type_ok_witness :
  let R := state_of (register_type Leaf two_bases) in
  let R1 := state_of (register_base_type Mid R) in
  (outcome (register_base_type Mid R) = inr Mid
   ∧ R1 = <[Mid := <[Some "mid" := Mid]> (default ∅ (R !! Mid))]> R
   ∧ lookup_type Mid "mid" R1 = (R1, inr Mid)
   ∧ R1 !! Mid ≫= (λ d1, d1 !! Some "leaf") = Some Leaf
   ∧ register_base_type Mid R1 = (R1, inr Mid))
  ∧ outcome (register_base_type BadKey ∅)
    = inl (TypeError (msg_dispatch_key_not_str "BadKey" "int")).
Proof.
  intros R R1. split.
  - destruct (proj1 (register_base_type_ok demo_mro_self R Mid) (Some "mid") eq_refl)
      as (Hout & Hstate & _ & Hlookup & Hkept & _ & _ & Hagain).
    split; [exact Hout|]. split; [exact Hstate|].
    split; [exact (Hlookup "mid" eq_refl)|]. split; [|exact Hagain].
    refine (Hkept (<[Some "leaf" := Leaf]> {[Some "mid" := Mid]}) (Some "leaf") _ _).
    + by vm_compute.
    + done.
  - refine (proj2 (register_base_type_ok demo_mro_self ∅ BadKey) (PyObj "int") _ _ _);
      [reflexivity|done|done].
Defined.

(** C2, as stated, fails: the [__dispatch_key__] of [BadKey] is the integer
    5, and [register_base_type(BadKey)] raises [TypeError] instead of
    returning [BadKey]. *)
Lemma register_base_type_bad_key_counterexample :
  outcome (register_base_type BadKey ∅)
  = inl (TypeError (msg_dispatch_key_not_str "BadKey" "int"))
  ∧ outcome (register_base_type BadKey ∅) ≠ inr BadKey.
Proof. by split. Qed.

(** C3: with no subregistry for [Plain] or [object], [lookup_type(Plain,
    "missing-key")] raises [AttributeError], which is not a [LookupError]. *)
Theorem lookup_type_unregistered_raises_AttributeError :
  lookup_type Plain "missing-key" ∅ = (∅, inl (AttributeError msg_none_has_no_get))
  ∧ is_LookupError (@AttributeError cls msg_none_has_no_get) = false
  ∧ outcome (lookup_type Plain "missing-key" ∅)
    ≠ inl (KeyError (msg_no_class_for_key "missing-key")).
Proof. by repeat split. Qed.

(** C4: [register_base_type(BadKey)] on an empty registry raises
    [TypeError], and [_TYPE_REGISTRIES] is left holding an empty subregistry
    for [BadKey]. *)
Theorem register_base_type_failure_leaves_subregistry :
  register_base_type BadKey ∅
  = ({[BadKey := ∅]}, inl (TypeError (msg_dispatch_key_not_str "BadKey" "int")))
  ∧ state_of (register_base_type BadKey ∅) ≠ ∅.
Proof.
  split; [reflexivity|].
  intros Heq. apply (f_equal (λ R : registries cls, R !! BadKey)) in Heq.
  by vm_compute in Heq.
Qed.

(** An instance of [Plain], which does not define [__dispatch_key__]. *)
Lemma get_dispatch_key_null_witness :
  resolved_dispatch_key (InstanceOf Plain 0) = PyNone
  ∧ get_dispatch_key (InstanceOf Plain 0) true = inr None
  ∧ get_dispatch_key (InstanceOf Plain 0) false
    = inl (ValueError (msg_no_dispatch_key "Plain")).
Proof.
  split; [reflexivity|].
  refine (get_dispatch_key_null (InstanceOf Plain 0) _). reflexivity.
Defined.

(** C5, as stated, fails: the [__dispatch_key__] of [Lazy] is a callable
    that returns [None]; with [allow_missing=False] [get_dispatch_key]
    raises the [TypeError] of the type check, not the [ValueError] of a
    missing key. *)
Lemma get_dispatch_key_callable_none_counterexample :
  resolved_dispatch_key (ClassObj Lazy) = PyNone
  ∧ get_dispatch_key (ClassObj Lazy) false
    = inl (TypeError (msg_dispatch_key_not_str "Lazy" "NoneType"))
  ∧ get_dispatch_key (ClassObj Lazy) false
    ≠ inl (ValueError (msg_no_dispatch_key "Lazy")).
Proof. by repeat split. Qed.

End DispatchFacts.

(** * Further properties of the dispatch registry *)
Module DispatchLaws.
Import Dispatch DispatchFacts.

Section laws.
Context {Cls : Type} `{Countable Cls} `{!Classes Cls}.
Implicit Types (R : registries Cls) (sub base cls c : Cls) (d : gmap (option string) Cls).
Implicit Types (key k : string) (o : pyobj Cls).

(** Python's linearization puts a class first in its own [mro()]. *)
Hypothesis mro_self : ∀ cls, head (mro cls) = Some cls.

(** *** The search along the MRO, read backwards *)

Lemma first_registry_inv R (l : list Cls) (r : dictref Cls) :
  head (omap (TYPE_REGISTRIES_get R) l) = Some r →
  ∃ l1 l2, l = l1 ++ owner r :: l2
           ∧ (∀ c, c ∈ l1 → R !! c = None) ∧ is_Some (R !! owner r).
Proof.
  induction l as [|a l IH]; [done|]. cbn.
  unfold TYPE_REGISTRIES_get at 1.
  destruct (R !! a) as [d|] eqn:Ha.
  - intros [= <-]. exists [], l. split; [done|]. split; [|cbn; by rewrite Ha].
    intros c Hc. by apply elem_of_nil in Hc.
  - intros (l1 & l2 & -> & Hl1 & Hr)%IH.
    exists (a :: l1), l2. split; [done|]. split; [|done].
    intros c [->|Hc]%elem_of_cons; [done|by apply Hl1].
Qed.

Lemma no_registry_inv R (l : list Cls) :
  head (omap (TYPE_REGISTRIES_get R) l) = None →
  ∀ c, c ∈ l → R !! c = None.
Proof.
  induction l as [|a l IH]; intros Hhead c Hc.
  - by apply elem_of_nil in Hc.
  - cbn in Hhead. unfold TYPE_REGISTRIES_get at 1 in Hhead.
    destruct (R !! a) as [d|] eqn:Ha; [done|].
    apply elem_of_cons in Hc as [->|Hc]; [done|by apply IH].
Qed.

(** The references of a registry depend only on which classes own a
    subregistry. *)
Lemma TYPE_REGISTRIES_get_alter R base (f : gmap (option string) Cls → gmap (option string) Cls) c :
  TYPE_REGISTRIES_get (alter f base R) c = TYPE_REGISTRIES_get R c.
Proof.
  unfold TYPE_REGISTRIES_get. rewrite lookup_alter.
  case_decide; [subst|done]. by destruct (R !! c).
Qed.

Lemma omap_get_alter R base (f : gmap (option string) Cls → gmap (option string) Cls) (l : list Cls) :
  omap (TYPE_REGISTRIES_get (alter f base R)) l = omap (TYPE_REGISTRIES_get R) l.
Proof.
  apply list_omap_ext, Forall2_same_length_lookup. split; [done|].
  intros i c c' Hc Hc'. rewrite Hc in Hc'. injection Hc' as <-.
  apply TYPE_REGISTRIES_get_alter.
Qed.

(** X1: [get_registry_for_type] only reads; it returns the subregistry of
    [base] exactly when [base] is the first class of [mro(cls)] that owns
    one (an empty subregistry counts), and [None] exactly when no class of
    [mro(cls)] owns one. *)
Theorem get_registry_for_type_spec R cls :
  state_of (get_registry_for_type cls R) = R
  ∧ (∀ base,
       outcome (get_registry_for_type cls R) = inr (Some (RegistryOf base))
       ↔ ∃ l1 l2, mro cls = l1 ++ base :: l2
                  ∧ (∀ c, c ∈ l1 → R !! c = None) ∧ is_Some (R !! base))
  ∧ (outcome (get_registry_for_type cls R) = inr None
     ↔ ∀ c, c ∈ mro cls → R !! c = None).
Proof.
  split; [done|]. split.
  - intros base. split.
    + unfold get_registry_for_type, gets, outcome. cbn. intros [= Hhead].
      by apply first_registry_inv in Hhead.
    + intros (l1 & l2 & Hmro & Hl1 & Hbase).
      by rewrite (get_registry_for_type_first R cls base l1 l2).
  - split.
    + unfold get_registry_for_type, gets, outcome. cbn. intros [= Hhead].
      by apply no_registry_inv.
    + intros Hnone. by rewrite get_registry_for_type_none.
Qed.

(** *** [lookup_type] *)

(** [lookup_type] with its two steps spelled out. *)
Lemma lookup_type_eq R cls key :
  lookup_type cls key R =
    (R, match head (omap (TYPE_REGISTRIES_get R) (mro cls)) with
        | None => inl (AttributeError msg_none_has_no_get)
        | Some r =>
            match R !! owner r ≫= (λ d, d !! Some key) with
            | Some subcls => inr subcls
            | None => inl (KeyError (msg_no_class_for_key key))
            end
        end).
Proof.
  unfold lookup_type, bind, get_registry_for_type, dict_get, gets.
  destruct (head _) as [r|]; [|done].
  by destruct (R !! owner r ≫= _).
Qed.

Lemma lookup_type_returns_inv R cls key sub :
  outcome (lookup_type cls key R) = inr sub →
  ∃ base l1 l2 d, mro cls = l1 ++ base :: l2
                  ∧ (∀ c, c ∈ l1 → R !! c = None)
                  ∧ R !! base = Some d ∧ d !! Some key = Some sub.
Proof.
  rewrite lookup_type_eq. unfold outcome. cbn.
  destruct (head _) as [r|] eqn:Hhead; [|done].
  apply first_registry_inv in Hhead as (l1 & l2 & Hmro & Hl1 & [d Hd]).
  rewrite Hd. cbn. destruct (d !! Some key) as [s|] eqn:Hs; [|done].
  intros [= <-]. by exists (owner r), l1, l2, d.
Qed.

(** X2: [lookup_type(cls, key)] returns [sub] exactly when the first class
    of [mro(cls)] that owns a subregistry has [sub] stored under [key]. *)
Theorem lookup_type_returns_iff R cls key sub :
  outcome (lookup_type cls key R) = inr sub
  ↔ ∃ base l1 l2 d, mro cls = l1 ++ base :: l2
                    ∧ (∀ c, c ∈ l1 → R !! c = None)
                    ∧ R !! base = Some d ∧ d !! Some key = Some sub.
Proof.
  split; [apply lookup_type_returns_inv|].
  intros (base & l1 & l2 & d & Hmro & Hl1 & Hd & Hsub).
  rewrite (lookup_type_in R cls base d).
  - by rewrite Hsub.
  - apply (get_registry_for_type_first R cls base l1 l2); [done..|].
    by rewrite Hd.
  - done.
Qed.

(** X3: [lookup_type] never changes [_TYPE_REGISTRIES]; it raises
    [KeyError] exactly when the first subregistry along [mro(cls)] has no
    entry for [key], whatever the subregistries of classes further up the
    MRO hold, and its only other failure is the [AttributeError]. *)
Theorem lookup_type_key_error_iff R cls key :
  state_of (lookup_type cls key R) = R
  ∧ (outcome (lookup_type cls key R) = inl (KeyError (msg_no_class_for_key key))
     ↔ ∃ base l1 l2 d, mro cls = l1 ++ base :: l2
                       ∧ (∀ c, c ∈ l1 → R !! c = None)
                       ∧ R !! base = Some d ∧ d !! Some key = None)
  ∧ (∀ e, outcome (lookup_type cls key R) = inl e →
          e = KeyError (msg_no_class_for_key key)
          ∨ e = AttributeError msg_none_has_no_get).
Proof.
  rewrite lookup_type_eq. unfold state_of, outcome. cbn [fst snd].
  split; [done|]. split.
  - split.
    + destruct (head _) as [r|] eqn:Hhead; [|done].
      apply first_registry_inv in Hhead as (l1 & l2 & Hmro & Hl1 & [d Hd]).
      rewrite Hd. cbn. destruct (d !! Some key) as [s|] eqn:Hs; [done|].
      intros _. by exists (owner r), l1, l2, d.
    + intros (base & l1 & l2 & d & Hmro & Hl1 & Hd & Hnone).
      pose proof (get_registry_for_type_first R cls base l1 l2 Hmro Hl1) as Hreg.
      unfold get_registry_for_type, gets in Hreg.
      injection Hreg as ->; [|by rewrite Hd].
      cbn. by rewrite Hd; cbn; rewrite Hnone.
  - intros e. destruct (head _) as [r|].
    + destruct (R !! owner r ≫= _); [done|]. intros [= <-]. by left.
    + intros [= <-]. by right.
Qed.

(** *** [get_dispatch_key] *)

(** X4: [get_dispatch_key] returns the string [s], with either value of
    [allow_missing], exactly when the resolved dispatch key is the [str]
    [s]. *)
Theorem get_dispatch_key_returns_str o (allow_missing : bool) (s : string) :
  get_dispatch_key o allow_missing = inr (Some s)
  ↔ resolved_dispatch_key o = PyStr s.
Proof.
  unfold get_dispatch_key, resolved_dispatch_key, getattr_dispatch_key.
  destruct (dispatch_key_attr o) as [[| | |t [| | |]]|], allow_missing; cbn;
    split; congruence.
Qed.

(** X5: when the resolved dispatch key is neither [None] nor a [str],
    [get_dispatch_key] raises the [TypeError] that names the type of the
    key, with either value of [allow_missing]. *)
Theorem get_dispatch_key_type_error o (allow_missing : bool) (v : pyval) :
  resolved_dispatch_key o = v →
  v ≠ PyNone →
  (∀ s, v ≠ PyStr s) →
  get_dispatch_key o allow_missing =
    inl (TypeError (msg_dispatch_key_not_str (type_name_for o) (type_name_of v))).
Proof.
  unfold get_dispatch_key, resolved_dispatch_key, getattr_dispatch_key.
  intros <- Hnone Hstr.
  destruct (dispatch_key_attr o) as [[|s| |t [|s| |]]|], allow_missing; cbn in *;
    try done; by destruct (Hstr s).
Qed.

(** X6: what [allow_missing] changes: with [allow_missing=True] the result
    is [None] exactly when the resolved key is [None] and the "does not
    define a value" [ValueError] is never raised; with [allow_missing=False]
    the result is never [None]; and for a resolved key other than [None] the
    flag makes no difference. *)
Theorem get_dispatch_key_allow_missing o :
  (get_dispatch_key o true = inr None ↔ resolved_dispatch_key o = PyNone)
  ∧ get_dispatch_key o false ≠ inr None
  ∧ (∀ m, get_dispatch_key o true ≠ inl (ValueError m))
  ∧ (resolved_dispatch_key o ≠ PyNone →
     get_dispatch_key o true = get_dispatch_key o false).
Proof.
  unfold get_dispatch_key, resolved_dispatch_key, getattr_dispatch_key.
  destruct (dispatch_key_attr o) as [[| | |t [| | |]]|]; cbn;
    repeat split; try done; congruence.
Qed.

(** *** [register_type] *)

(** [register_type] with its steps spelled out. *)
Lemma register_type_eq R cls :
  register_type cls R =
    match head (omap (TYPE_REGISTRIES_get R) (mro cls)) with
    | None => (R, inl (ValueError (msg_no_registry (name cls) (mro cls))))
    | Some r =>
        match get_dispatch_key (ClassObj cls) false with
        | inl e => (R, inl e)
        | inr key => (alter (<[key := cls]>) (owner r) R, inr cls)
        end
    end.
Proof.
  unfold register_type, bind, get_registry_for_type, gets, lift.
  destruct (head _) as [r|]; [|done].
  by destruct (get_dispatch_key _ _).
Qed.

(** A successful [register_type], under the conditions of its success. *)
Lemma register_type_stores R sub base (l1 l2 : list Cls) d k :
  mro sub = l1 ++ base :: l2 →
  (∀ c, c ∈ l1 → R !! c = None) →
  R !! base = Some d →
  get_dispatch_key (ClassObj sub) false = inr (Some k) →
  register_type sub R = (<[base := <[Some k := sub]> d]> R, inr sub).
Proof.
  intros Hmro Hl1 Hd Hkey. rewrite register_type_eq.
  pose proof (get_registry_for_type_first R sub base l1 l2 Hmro Hl1) as Hreg.
  unfold get_registry_for_type, gets in Hreg.
  injection Hreg as ->; [|by rewrite Hd].
  rewrite Hkey. cbn. by rewrite (alter_stored R base d).
Qed.

(** X7: [register_type] fails exactly in two ways, checked in this order:
    with the "No registry found" [ValueError] when no class of [mro(cls)]
    owns a subregistry, and otherwise with whatever [get_dispatch_key(cls)]
    raises; in both cases [_TYPE_REGISTRIES] is left as it was. *)
Theorem register_type_fails_iff R cls (e : exn Cls) :
  (outcome (register_type cls R) = inl e
   ↔ (∀ c, c ∈ mro cls → R !! c = None)
       ∧ e = ValueError (msg_no_registry (name cls) (mro cls))
     ∨ (∃ c, c ∈ mro cls ∧ is_Some (R !! c))
       ∧ get_dispatch_key (ClassObj cls) false = inl e)
  ∧ (outcome (register_type cls R) = inl e →
     state_of (register_type cls R) = R).
Proof.
  split; [|apply register_type_failure_no_mutation].
  rewrite register_type_eq.
  destruct (head _) as [r|] eqn:Hhead.
  - apply first_registry_inv in Hhead as (l1 & l2 & Hmro & Hl1 & Hr).
    assert (owner r ∈ mro cls) as Hin.
    { rewrite Hmro. apply elem_of_app. right. by left. }
    destruct (get_dispatch_key _ _) as [e'|key]; cbn; split.
    + intros [= <-]. right. split; [by exists (owner r)|done].
    + intros [[Hnone _]|[_ [= <-]]]; [|done].
      rewrite (Hnone _ Hin) in Hr. by destruct Hr.
    + done.
    + intros [[Hnone _]|[_ ?]]; [|done].
      rewrite (Hnone _ Hin) in Hr. by destruct Hr.
  - pose proof (no_registry_inv R _ Hhead) as Hnone. cbn. split.
    + intros [= <-]. by left.
    + intros [[_ ->]|[(c & Hc & Hsome) _]]; [done|].
      rewrite (Hnone c Hc) in Hsome. by destruct Hsome.
Qed.

(** X8: [register_type(cls)] can only change what is found under the
    dispatch key of [cls]: a lookup of any other key, from any class, has
    the same outcome after the call as before. *)
Theorem register_type_frame R cls c key :
  get_dispatch_key (ClassObj cls) false ≠ inr (Some key) →
  outcome (lookup_type c key (state_of (register_type cls R)))
  = outcome (lookup_type c key R).
Proof.
  intros Hkey. rewrite register_type_eq.
  destruct (head (omap _ (mro cls))) as [r|]; [|done].
  destruct (get_dispatch_key _ _) as [e|key']; [done|].
  unfold state_of. cbn [fst]. rewrite !lookup_type_eq. unfold outcome. cbn [snd].
  rewrite omap_get_alter.
  destruct (head (omap _ (mro c))) as [r'|]; [|done].
  rewrite lookup_alter. case_decide as Heq; [|done].
  rewrite Heq. destruct (R !! owner r') as [d|]; [|done]. cbn.
  rewrite lookup_insert_ne; [done|]. congruence.
Qed.

(** X9: subregistries are separate: when [c] resolves to the subregistry of
    [base] and [cls] does not, [register_type(cls)] changes no lookup made
    from [c]. *)
Theorem register_type_other_subregistry R cls c base (l1 l2 : list Cls) key :
  mro c = l1 ++ base :: l2 →
  (∀ x, x ∈ l1 → R !! x = None) →
  is_Some (R !! base) →
  outcome (get_registry_for_type cls R) ≠ inr (Some (RegistryOf base)) →
  outcome (lookup_type c key (state_of (register_type cls R)))
  = outcome (lookup_type c key R).
Proof.
  intros Hmro Hl1 Hbase Hother. rewrite register_type_eq.
  unfold get_registry_for_type, gets, outcome in Hother. cbn in Hother.
  destruct (head (omap _ (mro cls))) as [r|]; [|done].
  destruct (get_dispatch_key _ _) as [e|key']; [done|].
  unfold state_of. cbn [fst]. rewrite !lookup_type_eq. unfold outcome. cbn [snd].
  rewrite omap_get_alter.
  pose proof (get_registry_for_type_first R c base l1 l2 Hmro Hl1 Hbase) as Hreg.
  unfold get_registry_for_type, gets in Hreg. injection Hreg as ->. cbn.
  rewrite lookup_alter_ne; [done|].
  intros Heq. apply Hother. destruct r. cbn in Heq. by rewrite Heq.
Qed.

(** X10: a registration is seen from every class that resolves to the same
    subregistry: after [register_type(sub)] stored [sub] under [k] in the
    subregistry of [base], [lookup_type(c, k)] returns [sub] for every [c]
    whose first subregistry along the MRO is that of [base], [sub] itself
    included. *)
Theorem register_type_visible R sub base c (l1 l2 m1 m2 : list Cls) k :
  mro sub = l1 ++ base :: l2 →
  (∀ x, x ∈ l1 → R !! x = None) →
  mro c = m1 ++ base :: m2 →
  (∀ x, x ∈ m1 → R !! x = None) →
  is_Some (R !! base) →
  get_dispatch_key (ClassObj sub) false = inr (Some k) →
  outcome (lookup_type c k (state_of (register_type sub R))) = inr sub.
Proof.
  intros Hsub Hl1 Hc Hm1 [d Hd] Hkey.
  rewrite (register_type_stores R sub base l1 l2 d k) by done.
  unfold state_of. cbn [fst].
  rewrite (lookup_type_in _ c base (<[Some k := sub]> d)).
  - by rewrite lookup_insert_eq.
  - apply (get_registry_for_type_first _ c base m1 m2); [done| |].
    + intros x Hx. rewrite lookup_insert_ne; [by apply Hm1|].
      intros <-. rewrite (Hm1 base Hx) in Hd. done.
    + rewrite lookup_insert_eq. by eexists.
  - apply lookup_insert_eq.
Qed.

(** X11: the last registration wins: when [first] and [second] resolve to
    the same subregistry and have the same dispatch key [k], registering
    [first] and then [second] leaves [second] under [k]. *)
Theorem register_type_last_wins R first second base (l1 l2 m1 m2 : list Cls) k :
  mro first = l1 ++ base :: l2 →
  (∀ x, x ∈ l1 → R !! x = None) →
  mro second = m1 ++ base :: m2 →
  (∀ x, x ∈ m1 → R !! x = None) →
  is_Some (R !! base) →
  get_dispatch_key (ClassObj first) false = inr (Some k) →
  get_dispatch_key (ClassObj second) false = inr (Some k) →
  let R1 := state_of (register_type first R) in
  let R2 := state_of (register_type second R1) in
  outcome (lookup_type base k R1) = inr first
  ∧ outcome (register_type second R1) = inr second
  ∧ outcome (lookup_type base k R2) = inr second.
Proof.
  intros Hfirst Hl1 Hsecond Hm1 [d Hd] Hk1 Hk2 R1 R2.
  assert (R1 = <[base := <[Some k := first]> d]> R) as HR1.
  { unfold R1. by rewrite (register_type_stores R first base l1 l2 d k). }
  assert (R1 !! base = Some (<[Some k := first]> d)) as Hd1.
  { rewrite HR1. apply lookup_insert_eq. }
  assert (∀ x, x ∈ m1 → R1 !! x = None) as Hm1'.
  { intros x Hx. rewrite HR1, lookup_insert_ne; [by apply Hm1|].
    intros <-. rewrite (Hm1 base Hx) in Hd. done. }
  assert (register_type second R1
          = (<[base := <[Some k := second]> (<[Some k := first]> d)]> R1, inr second))
    as Hreg2 by by apply (register_type_stores R1 second base m1 m2).
  split; [|split].
  - rewrite (lookup_type_in R1 base base (<[Some k := first]> d)); [|..|done].
    + by rewrite lookup_insert_eq.
    + apply get_registry_for_type_self; [done|]. by rewrite Hd1.
  - by rewrite Hreg2.
  - unfold R2. rewrite Hreg2. unfold state_of. cbn [fst].
    rewrite (lookup_type_in _ base base (<[Some k := second]> (<[Some k := first]> d))).
    + by rewrite lookup_insert_eq.
    + apply get_registry_for_type_self; [done|]. rewrite lookup_insert_eq. by eexists.
    + apply lookup_insert_eq.
Qed.

(** *** [register_base_type] *)

(** [register_base_type] with its steps spelled out, for every outcome. *)
Lemma register_base_type_unfold R cls :
  register_base_type cls R =
    let R0 := match R !! cls with Some _ => R | None => <[cls := ∅]> R end in
    match get_dispatch_key (ClassObj cls) true with
    | inl e => (R0, inl e)
    | inr (Some k) => (alter (<[Some k := cls]>) cls R0, inr cls)
    | inr None => (R0, inr cls)
    end.
Proof.
  unfold register_base_type, bind, TYPE_REGISTRIES_setdefault, lift.
  by destruct (R !! cls), (get_dispatch_key _ _) as [e|[k|]].
Qed.

(** X12: [register_base_type] fails exactly when
    [get_dispatch_key(cls, allow_missing=True)] does, with the same
    exception; by then [setdefault] has run, so a class without a
    subregistry has an empty one afterwards and nothing else has changed. *)
Theorem register_base_type_fails_iff R cls (e : exn Cls) :
  (outcome (register_base_type cls R) = inl e
   ↔ get_dispatch_key (ClassObj cls) true = inl e)
  ∧ (outcome (register_base_type cls R) = inl e →
     state_of (register_base_type cls R)
     = match R !! cls with Some _ => R | None => <[cls := ∅]> R end).
Proof.
  rewrite register_base_type_unfold. cbn zeta.
  destruct (get_dispatch_key (ClassObj cls) true) as [e'|[k|]] eqn:Hkey;
    unfold outcome, state_of; cbn [fst snd];
    (split; [split; congruence|done]).
Qed.

(** X13: registering a base again drops nothing: when [base] already owns a
    subregistry, [register_base_type(base)] changes no lookup of a key other
    than the dispatch key of [base], from any class. *)
Theorem register_base_type_again_keeps R base c key :
  is_Some (R !! base) →
  get_dispatch_key (ClassObj base) true ≠ inr (Some key) →
  outcome (lookup_type c key (state_of (register_base_type base R)))
  = outcome (lookup_type c key R).
Proof.
  intros [d Hd] Hkey. rewrite register_base_type_unfold, Hd. cbn zeta.
  destruct (get_dispatch_key _ _) as [e|[k|]]; [done| |done].
  unfold state_of. cbn [fst]. rewrite !lookup_type_eq. unfold outcome. cbn [snd].
  rewrite omap_get_alter.
  destruct (head (omap _ (mro c))) as [r|]; [|done].
  rewrite lookup_alter. case_decide as Heq; [|done].
  rewrite <- Heq, Hd. cbn. rewrite lookup_insert_ne; [done|]. congruence.
Qed.

(** X14: a new base hides the registrations of its ancestors: when [cls]
    owns no subregistry, after [register_base_type(cls)] a lookup from [cls]
    finds [cls] under its own dispatch key and raises [KeyError] for every
    other key, whatever the classes further up the MRO have registered. *)
Theorem register_base_type_shadows R cls (own : option string) key :
  R !! cls = None →
  get_dispatch_key (ClassObj cls) true = inr own →
  outcome (lookup_type cls key (state_of (register_base_type cls R)))
  = if decide (own = Some key) then inr cls
    else inl (KeyError (msg_no_class_for_key key)).
Proof.
  intros Hnone Hown.
  rewrite (register_base_type_eq R cls own Hown), Hnone.
  unfold state_of. cbn [fst default].
  set (d1 := match own with Some k => <[Some k := cls]> ∅ | None => ∅ end).
  rewrite (lookup_type_in _ cls cls d1).
  - unfold d1, outcome. cbn [snd]. destruct own as [k|].
    + rewrite lookup_insert. repeat case_decide; try done; congruence.
    + rewrite lookup_empty. by case_decide.
  - apply get_registry_for_type_self; [done|]. rewrite lookup_insert_eq. by eexists.
  - apply lookup_insert_eq.
Qed.

(** X15: which classes own a subregistry: [register_base_type(cls)] adds
    [cls] and nothing else, whether it returns or raises; [register_type]
    adds and removes none. *)
Theorem registration_dom R cls :
  dom (state_of (register_base_type cls R)) = {[cls]} ∪ dom R
  ∧ dom (state_of (register_type cls R)) = dom R.
Proof.
  split; [|apply register_type_dom].
  rewrite register_base_type_unfold. cbn zeta.
  assert (dom (match R !! cls with Some _ => R | None => <[cls := ∅]> R end)
          = {[cls]} ∪ dom R) as Hdom.
  { destruct (R !! cls) as [d|] eqn:Hd; [|by rewrite dom_insert_L].
    apply elem_of_dom_2 in Hd. apply set_eq. intros x.
    rewrite elem_of_union, elem_of_singleton. split; [by right|].
    by intros [->|?]. }
  destruct (get_dispatch_key _ _) as [e|[k|]]; unfold state_of; cbn [fst];
    by rewrite ?dom_alter_L.
Qed.

(** X16: the flow of the module docstring, for any classes: after
    [register_base_type(base)] and [register_type(sub)], where [base] is the
    first class along [mro(sub)] to own a subregistry and the key of [sub]
    is [k], both [lookup_type(base, k)] and [lookup_type(sub, k)] return
    [sub], and [base] is still found under its own key when that differs
    from [k]. *)
Theorem register_base_then_type R base sub (l1 l2 : list Cls)
    (own : option string) k :
  get_dispatch_key (ClassObj base) true = inr own →
  mro sub = l1 ++ base :: l2 →
  (∀ c, c ∈ l1 → R !! c = None) →
  base ∉ l1 →
  get_dispatch_key (ClassObj sub) false = inr (Some k) →
  let R1 := state_of (register_base_type base R) in
  let R2 := state_of (register_type sub R1) in
  outcome (register_type sub R1) = inr sub
  ∧ outcome (lookup_type base k R2) = inr sub
  ∧ outcome (lookup_type sub k R2) = inr sub
  ∧ (∀ k0, own = Some k0 → k0 ≠ k → outcome (lookup_type base k0 R2) = inr base).
Proof.
  intros Hown Hmro Hl1 Hnotin Hkey R1 R2.
  set (d1 := match own with
             | Some k0 => <[Some k0 := base]> (default ∅ (R !! base))
             | None => default ∅ (R !! base)
             end).
  assert (R1 = <[base := d1]> R) as HR1.
  { unfold R1. by rewrite (register_base_type_eq R base own Hown). }
  assert (R1 !! base = Some d1) as Hd1 by (rewrite HR1; apply lookup_insert_eq).
  assert (∀ c, c ∈ l1 → R1 !! c = None) as Hl1'.
  { intros c Hc. rewrite HR1, lookup_insert_ne; [by apply Hl1|].
    by intros <-. }
  assert (register_type sub R1 = (<[base := <[Some k := sub]> d1]> R1, inr sub))
    as Hreg by by apply (register_type_stores R1 sub base l1 l2).
  assert (R2 = <[base := <[Some k := sub]> d1]> R1) as HR2.
  { unfold R2. by rewrite Hreg. }
  assert (R2 !! base = Some (<[Some k := sub]> d1)) as Hd2
    by (rewrite HR2; apply lookup_insert_eq).
  assert (outcome (get_registry_for_type base R2) = inr (Some (RegistryOf base)))
    as Hbase.
  { rewrite get_registry_for_type_self; [done..|]. by rewrite Hd2. }
  assert (get_registry_for_type base R2 = (R2, inr (Some (RegistryOf base))))
    as Hbase' by (apply get_registry_for_type_self; [done|]; by rewrite Hd2).
  repeat split.
  - by rewrite Hreg.
  - rewrite (lookup_type_in R2 base base _ k Hbase' Hd2).
    by rewrite lookup_insert_eq.
  - rewrite (lookup_type_in R2 sub base (<[Some k := sub]> d1)); [|..|done].
    + by rewrite lookup_insert_eq.
    + apply (get_registry_for_type_first R2 sub base l1 l2); [done| |by rewrite Hd2].
      intros c Hc. rewrite HR2, lookup_insert_ne; [by apply Hl1'|].
      by intros <-.
  - intros k0 -> Hne.
    rewrite (lookup_type_in R2 base base _ k0 Hbase' Hd2).
    rewrite lookup_insert_ne by congruence.
    unfold d1. by rewrite lookup_insert_eq.
Qed.

(** *** What holds in every history *)

Lemma get_dispatch_key_str_any_flag o (b b' : bool) (s : string) :
  get_dispatch_key o b = inr (Some s) → get_dispatch_key o b' = inr (Some s).
Proof.
  unfold get_dispatch_key, getattr_dispatch_key.
  destruct (dispatch_key_attr o) as [[| | |t [| | |]]|], b, b'; cbn; congruence.
Qed.

Lemma mro_self_elem cls : cls ∈ mro cls.
Proof.
  pose proof (mro_self cls) as Hhead.
  destruct (mro cls) as [|c l]; [done|]. injection Hhead as ->. by left.
Qed.

(** Storing a well-formed entry keeps the registry well formed. *)
Lemma registry_ok_store R base k c :
  registry_ok R → entry_ok base (Some k) c →
  registry_ok (alter (<[Some k := c]>) base R).
Proof.
  intros HR Hentry base' d' key' c' Hd' Hc'.
  rewrite lookup_alter in Hd'. case_decide as Heq; [subst base'|by eapply HR].
  destruct (R !! base) as [d|] eqn:Hd; [|done].
  injection Hd' as <-.
  rewrite lookup_insert in Hc'. case_decide as Hk.
  - injection Hc' as <-. by subst key'.
  - by eapply HR.
Qed.

Lemma registry_ok_setdefault R cls :
  registry_ok R →
  registry_ok (match R !! cls with Some _ => R | None => <[cls := ∅]> R end).
Proof.
  intros HR. destruct (R !! cls) as [d0|] eqn:Hcls; [done|].
  intros base d key c Hd Hc.
  rewrite lookup_insert in Hd. case_decide as Heq; [|by eapply HR].
  injection Hd as <-. by rewrite lookup_empty in Hc.
Qed.

Lemma registry_ok_register_base_type R cls :
  registry_ok R → registry_ok (state_of (register_base_type cls R)).
Proof.
  intros HR. rewrite register_base_type_unfold. cbn zeta.
  pose proof (registry_ok_setdefault R cls HR) as HR0.
  destruct (get_dispatch_key (ClassObj cls) true) as [e|[k|]] eqn:Hkey;
    unfold state_of; cbn [fst]; [done| |done].
  apply registry_ok_store; [done|]. exists k. split; [done|]. split.
  - by apply (get_dispatch_key_str_any_flag _ true).
  - apply mro_self_elem.
Qed.

Lemma registry_ok_register_type R cls :
  registry_ok R → registry_ok (state_of (register_type cls R)).
Proof.
  intros HR. rewrite register_type_eq.
  destruct (head _) as [r|] eqn:Hhead; [|done].
  apply first_registry_inv in Hhead as (l1 & l2 & Hmro & _ & _).
  destruct (get_dispatch_key (ClassObj cls) false) as [e|[k|]] eqn:Hkey;
    unfold state_of; cbn [fst]; [done| |].
  - apply registry_ok_store; [done|]. exists k. split; [done|]. split; [done|].
    rewrite Hmro. apply elem_of_app. right. by left.
  - by destruct (get_dispatch_key_strict_not_none (ClassObj cls)).
Qed.

Lemma registry_ok_reachable R : reachable R → registry_ok R.
Proof.
  induction 1 as [|R cls _ IH|R cls _ IH].
  - intros base d key c Hd. by rewrite lookup_empty in Hd.
  - by apply registry_ok_register_base_type.
  - by apply registry_ok_register_type.
Qed.

(** X17: in every state [_TYPE_REGISTRIES] can reach from [{}] through
    [register_base_type] and [register_type] calls (failed ones included),
    each entry of each subregistry has a [str] key, which is the dispatch key
    of the class stored under it, and that class has the owner of the
    subregistry in its MRO. *)
Theorem reachable_entries R base d (key : option string) c :
  reachable R →
  R !! base = Some d →
  d !! key = Some c →
  ∃ k, key = Some k
       ∧ get_dispatch_key (ClassObj c) false = inr (Some k)
       ∧ base ∈ mro c.
Proof.
  intros Hreach Hd Hc. exact (registry_ok_reachable R Hreach base d key c Hd Hc).
Qed.

(** X18: in every reachable state, a class returned by
    [lookup_type(cls, key)] has [key] as its dispatch key and shares with
    [cls] an ancestor that owns a subregistry. *)
Theorem lookup_type_sound R cls key sub :
  reachable R →
  outcome (lookup_type cls key R) = inr sub →
  get_dispatch_key (ClassObj sub) false = inr (Some key)
  ∧ ∃ base, base ∈ mro cls ∧ base ∈ mro sub ∧ is_Some (R !! base).
Proof.
  intros Hreach (base & l1 & l2 & d & Hmro & _ & Hd & Hsub)%lookup_type_returns_inv.
  destruct (registry_ok_reachable R Hreach base d (Some key) sub Hd Hsub)
    as (k & [= <-] & Hkey & Hin).
  split; [done|]. exists base. split; [|split; [done|by rewrite Hd]].
  rewrite Hmro. apply elem_of_app. right. by left.
Qed.

End laws.

(** ** On the classes of [Demo] and [Flat] *)
Import Demo.

(** [Mid] registered under [Base] by [register_type], before it becomes a
    base itself. *)
Lemma mid_under_base :
  state_of (register_type Mid (state_of (register_base_type Base ∅)))
  = {[Base := <[Some "mid" := Mid]> {[Some "base" := Base]}]}.
Proof. by vm_compute. Qed.

Lemma reachable_two_bases : reachable two_bases.
Proof.
  unfold two_bases.
  apply reachable_register_base_type, reachable_register_base_type,
    reachable_import.
Qed.

(** The key of [BadKey] is an [int]. *)
Lemma get_dispatch_key_type_error_witness :
  get_dispatch_key (ClassObj BadKey) true
    = inl (TypeError (msg_dispatch_key_not_str "BadKey" "int"))
  ∧ get_dispatch_key (InstanceOf BadKey 7) false
    = inl (TypeError (msg_dispatch_key_not_str "BadKey" "int")).
Proof.
  split.
  - refine (get_dispatch_key_type_error (ClassObj BadKey) true (PyObj "int") _ _ _);
      [reflexivity|done|done].
  - refine (get_dispatch_key_type_error (InstanceOf BadKey 7) false (PyObj "int") _ _ _);
      [reflexivity|done|done].
Defined.

(** Registering [Leaf] (key ["leaf"]) leaves the lookup of ["mid"] alone. *)
Lemma register_type_frame_witness :
  outcome (lookup_type Mid "mid" (state_of (register_type Leaf two_bases)))
  = outcome (lookup_type Mid "mid" two_bases).
Proof.
  refine (register_type_frame two_bases Leaf Mid "mid" _). done.
Defined.

(** [Leaf] goes to the subregistry of [Mid]; lookups from [Base] read that of
    [Base]. *)
Lemma register_type_other_subregistry_witness :
  outcome (lookup_type Base "leaf" (state_of (register_type Leaf two_bases)))
  = outcome (lookup_type Base "leaf" two_bases).
Proof.
  refine (register_type_other_subregistry two_bases Leaf Base Base [] [object]
            "leaf" _ _ _ _).
  - reflexivity.
  - intros x Hx. by apply elem_of_nil in Hx.
  - eexists. vm_compute. reflexivity.
  - done.
Defined.

(** [Leaf] finds itself under its own key. *)
Lemma register_type_visible_witness :
  outcome (lookup_type Leaf "leaf" (state_of (register_type Leaf two_bases)))
  = inr Leaf.
Proof.
  refine (register_type_visible two_bases Leaf Mid Leaf [Leaf] [Base; object]
            [Leaf] [Base; object] "leaf" _ _ _ _ _ _).
  - reflexivity.
  - intros x Hx. each_member Hx.
  - reflexivity.
  - intros x Hx. each_member Hx.
  - eexists. vm_compute. reflexivity.
  - reflexivity.
Defined.

Lemma flat_mro_self : ∀ c : nat, head (mro (Classes := Flat.flat_classes) c) = Some c.
Proof. by intros [|[|c]]. Qed.

(** Two subclasses of [Shape] that inherit its key ["shape"]: the second one
    registered is the one found. *)
Lemma register_type_last_wins_witness :
  let R := state_of (register_base_type (Classes0 := Flat.flat_classes) 1 ∅) in
  let R1 := state_of (register_type (Classes0 := Flat.flat_classes) 2 R) in
  let R2 := state_of (register_type (Classes0 := Flat.flat_classes) 3 R1) in
  outcome (lookup_type (Classes0 := Flat.flat_classes) 1 "shape" R1) = inr 2
  ∧ outcome (register_type (Classes0 := Flat.flat_classes) 3 R1) = inr 3
  ∧ outcome (lookup_type (Classes0 := Flat.flat_classes) 1 "shape" R2) = inr 3.
Proof.
  intros R.
  refine (register_type_last_wins (Classes0 := Flat.flat_classes) flat_mro_self
            R 2 3 1 [2] [0] [3] [0] "shape" _ _ _ _ _ _ _).
  - reflexivity.
  - intros x Hx. each_member Hx.
  - reflexivity.
  - intros x Hx. each_member Hx.
  - eexists. vm_compute. reflexivity.
  - reflexivity.
  - reflexivity.
Defined.

(** [register_base_type(Mid)] a second time keeps [Leaf]. *)
Lemma register_base_type_again_keeps_witness :
  let R := state_of (register_type Leaf two_bases) in
  outcome (lookup_type Leaf "leaf" (state_of (register_base_type Mid R)))
  = outcome (lookup_type Leaf "leaf" R).
Proof.
  intros R.
  refine (register_base_type_again_keeps R Mid Leaf "leaf" _ _).
  - eexists. vm_compute. reflexivity.
  - done.
Defined.

(** [Mid], registered under [Base], finds [Base] under ["base"]; once [Mid]
    is a base itself the same lookup raises [KeyError]. *)
Lemma register_base_type_shadows_witness :
  let R := state_of (register_type Mid (state_of (register_base_type Base ∅))) in
  outcome (lookup_type Mid "base" R) = inr Base
  ∧ outcome (lookup_type Mid "base" (state_of (register_base_type Mid R)))
    = inl (KeyError (msg_no_class_for_key "base")).
Proof.
  intros R. split; [reflexivity|].
  refine (register_base_type_shadows demo_mro_self R Mid (Some "mid") "base" _ _);
    reflexivity.
Defined.

(** The module docstring: [Base], then [Foo(Base)]. *)
Lemma register_base_then_type_witness :
  let R1 := state_of (register_base_type Base ∅) in
  let R2 := state_of (register_type Foo R1) in
  outcome (register_type Foo R1) = inr Foo
  ∧ outcome (lookup_type Base "foo" R2) = inr Foo
  ∧ outcome (lookup_type Foo "foo" R2) = inr Foo
  ∧ (∀ k0, Some "base" = Some k0 → k0 ≠ "foo" →
           outcome (lookup_type Base k0 R2) = inr Base).
Proof.
  refine (register_base_then_type demo_mro_self ∅ Base Foo [Foo] [object]
            (Some "base") "foo" _ _ _ _ _).
  - reflexivity.
  - reflexivity.
  - intros c Hc. each_member Hc.
  - intros [Hin|Hin]%elem_of_cons; [done|by apply elem_of_nil in Hin].
  - reflexivity.
Defined.

(** The entry of [Leaf] in the subregistry of [Mid]. *)
Lemma reachable_entries_witness :
  ∃ k, Some "leaf" = Some k
       ∧ get_dispatch_key (ClassObj Leaf) false = inr (Some k)
       ∧ Mid ∈ mro Leaf.
Proof.
  refine (reachable_entries demo_mro_self (state_of (register_type Leaf two_bases))
            Mid (<[Some "leaf" := Leaf]> {[Some "mid" := Mid]}) (Some "leaf") Leaf
            _ _ _).
  - apply reachable_register_type, reachable_two_bases.
  - by vm_compute.
  - reflexivity.
Defined.

(** [lookup_type(Leaf, "mid")] returns [Mid]. *)
Lemma lookup_type_sound_witness :
  get_dispatch_key (ClassObj Mid) false = inr (Some "mid")
  ∧ ∃ base, base ∈ mro Leaf ∧ base ∈ mro Mid
            ∧ is_Some (state_of (register_type Leaf two_bases) !! base).
Proof.
  refine (lookup_type_sound demo_mro_self (state_of (register_type Leaf two_bases))
            Leaf "mid" Mid _ _).
  - apply reachable_register_type, reachable_two_bases.
  - reflexivity.
Defined.

End DispatchLaws.

(** * Properties of filter construction *)
Module FilterFacts.
Import Filters.

Section facts.
Implicit Types (T : filter_type) (v : fields) (r : rule) (f g : string).

Lemma is_set_spec v f : is_set v f = true ↔ is_Some (v !! f).
Proof.
  unfold is_set. by destruct (v !! f); split.
Qed.

Lemma is_set_unset v f : v !! f = None → is_set v f = false.
Proof. unfold is_set. by intros ->. Qed.

(** When does the first rule report a violation? *)
Lemma check_at_least_one_operator_spec T v :
  check_at_least_one_operator T v = [NoOperator]
    ∧ (∀ f, f ∈ operators T → v !! f = None)
  ∨ check_at_least_one_operator T v = []
    ∧ (∃ f, f ∈ operators T ∧ is_Some (v !! f)).
Proof.
  unfold check_at_least_one_operator.
  destruct (existsb (is_set v) (operators T)) eqn:Hex.
  - right. split; [done|].
    apply existsb_exists in Hex as (f & Hin & Hset).
    exists f. split; [by apply list_elem_of_In|by apply is_set_spec].
  - left. split; [done|]. intros f Hf.
    destruct (v !! f) as [x|] eqn:Hx; [|done].
    assert (existsb (is_set v) (operators T) = true) as Htrue; [|congruence].
    apply existsb_exists. exists f.
    split; [by apply list_elem_of_In|]. apply is_set_spec. by rewrite Hx.
Qed.

Lemma flat_map_nil {A B} (h : A → list B) (l : list A) :
  flat_map h l = [] ↔ ∀ x, x ∈ l → h x = [].
Proof.
  induction l as [|a l IH]; cbn.
  - split; [|done]. intros _ x Hx. by apply elem_of_nil in Hx.
  - split.
    + intros [Ha Hl]%app_eq_nil x [->|Hx]%elem_of_cons; [done|].
      by apply IH.
    + intros Hall. rewrite (Hall a) by left. cbn. apply IH.
      intros x Hx. apply Hall. by right.
Qed.

(** A rule stays silent when one of its two fields is null. *)
Lemma check_rule_unset v r :
  match r with
  | Exclusive f g | OrderedRange f g => v !! f = None ∨ v !! g = None
  end →
  check_rule v r = [].
Proof.
  destruct r as [f g|f g]; cbn; intros [Hf|Hg].
  - by rewrite (is_set_unset v f).
  - rewrite (is_set_unset v g) by done. by rewrite andb_false_r.
  - by rewrite Hf.
  - rewrite Hg. by destruct (v !! f) as [[]|].
Qed.

(** What [construct] returns, from what [validate] reports. *)
Lemma construct_valid T v :
  validate T v = [] →
  construct T v = inr {| filter_type_of := T; filter_fields := v |}.
Proof. unfold construct. by intros ->. Qed.

Lemma construct_invalid T v :
  validate T v ≠ [] →
  construct T v = inl (ValidationError (type_name T) (validate T v)).
Proof. unfold construct. by destruct (validate T v). Qed.

Lemma wf_rule_in T r :
  wf T = true → r ∈ rules T → wf_rule T r = true.
Proof.
  unfold wf. rewrite forallb_forall. intros Hwf Hr.
  apply Hwf. by apply list_elem_of_In.
Qed.

Lemma wf_rule_fields T f g :
  (wf_rule T (Exclusive f g) = true ∨ wf_rule T (OrderedRange f g) = true) →
  f ∈ operators T ∧ g ∈ operators T ∧ f ≠ g.
Proof.
  intros [Hwf|Hwf]; cbn in Hwf;
    apply andb_true_iff in Hwf as [[Hf Hg]%andb_true_iff Hne];
    by apply bool_decide_eq_true in Hf, Hg, Hne.
Qed.

(** C7: when every recognized constraint field is null, construction
    fails with the [ValidationError] of the "at least one operator" rule;
    when exactly one recognized constraint field is set, construction
    succeeds. *)
Theorem construct_at_least_one_operator T v :
  wf T = true →
  ((∀ f, f ∈ operators T → v !! f = None) →
   construct T v = inl (ValidationError (type_name T) [NoOperator]))
  ∧ (∀ f, f ∈ operators T → is_Some (v !! f) →
     (∀ g, g ∈ operators T → is_Some (v !! g) → g = f) →
     construct T v = inr {| filter_type_of := T; filter_fields := v |}).
Proof.
  intros Hwf. split.
  - intros Hnull.
    assert (flat_map (check_rule v) (rules T) = []) as Hrules.
    { apply flat_map_nil. intros r Hr. apply check_rule_unset.
      pose proof (wf_rule_in T r Hwf Hr) as Hr'.
      destruct r as [f g|f g];
        (destruct (wf_rule_fields T f g) as (Hf & _ & _); [by auto|]);
        left; by apply Hnull. }
    destruct (check_at_least_one_operator_spec T v) as [[Hone _]|[_ (f & Hf & Hset)]].
    + rewrite construct_invalid; unfold validate; rewrite Hone, Hrules; done.
    + rewrite (Hnull f Hf) in Hset. by destruct Hset.
  - intros f Hf Hset Honly. apply construct_valid. unfold validate.
    destruct (check_at_least_one_operator_spec T v) as [[_ Hnull]|[-> _]].
    { rewrite (Hnull f Hf) in Hset. by destruct Hset. }
    cbn. apply flat_map_nil. intros r Hr. apply check_rule_unset.
    pose proof (wf_rule_in T r Hwf Hr) as Hr'.
    assert (∀ a b, a ∈ operators T → b ∈ operators T → a ≠ b →
                   v !! a = None ∨ v !! b = None) as Hone.
    { intros a b Ha Hb Hne.
      destruct (v !! a) as [x|] eqn:Hx; [|by left].
      destruct (v !! b) as [y|] eqn:Hy; [|by right].
      destruct Hne. transitivity f; [|symmetry]; apply Honly; by rewrite ?Hx, ?Hy. }
    destruct r as [a b|a b];
      (destruct (wf_rule_fields T a b) as (Ha & Hb & Hne); [by auto|]);
      by apply Hone.
Qed.

(** Which rule instances a filter type has, from the fields it declares. *)
Lemma elem_of_fields_of_kind T (K : kind) f :
  f ∈ fields_of_kind T K ↔ f ∈ operators T ∧ kind_of T f = K.
Proof. unfold fields_of_kind. rewrite list_elem_of_filter. tauto. Qed.

Lemma elem_of_rules T r :
  r ∈ rules T ↔
  match r with
  | Exclusive i n =>
      (i ∈ operators T ∧ kind_of T i = Inclusion)
      ∧ (n ∈ operators T ∧ kind_of T n = IsNull)
  | OrderedRange b a =>
      (b ∈ operators T ∧ kind_of T b = Before)
      ∧ (a ∈ operators T ∧ kind_of T a = After)
  end.
Proof.
  unfold rules. rewrite elem_of_app, !list_elem_of_In, !in_flat_map.
  setoid_rewrite <- list_elem_of_In.
  setoid_rewrite list_elem_of_fmap.
  setoid_rewrite elem_of_fields_of_kind.
  destruct r as [i n|b a]; split.
  - intros [(x & Hx & y & [= -> ->] & Hy)|(x & _ & y & [=] & _)]. done.
  - intros [Hi Hn]. left. exists i. split; [done|]. by exists n.
  - intros [(x & _ & y & [=] & _)|(x & Hx & y & [= -> ->] & Hy)]. done.
  - intros [Hb Ha]. right. exists b. split; [done|]. by exists a.
Qed.

(** Rule instances that follow from declared fields are always well formed:
    both fields are recognized, and they differ because their parts do. *)
Lemma wf_declared T : wf T = true.
Proof.
  unfold wf. apply forallb_forall. intros r Hr%list_elem_of_In%elem_of_rules.
  destruct r as [f g|f g]; destruct Hr as [[Hf Hfk] [Hg Hgk]]; cbn;
    rewrite !andb_true_iff, !bool_decide_eq_true;
    (split; [done|]); intros ->; congruence.
Qed.

(** When does a rule instance report a violation, and which one? *)
Lemma check_rule_exclusive v (inclusion is_null : string) :
  check_rule v (Exclusive inclusion is_null) = [InclusionWithIsNull inclusion is_null]
    ∧ is_Some (v !! inclusion) ∧ is_Some (v !! is_null)
  ∨ check_rule v (Exclusive inclusion is_null) = []
    ∧ ¬ (is_Some (v !! inclusion) ∧ is_Some (v !! is_null)).
Proof.
  cbn. destruct (is_set v inclusion) eqn:Hi, (is_set v is_null) eqn:Hn; cbn.
  - left. by rewrite <- !is_set_spec.
  - right. split; [done|]. rewrite <- !is_set_spec. intros [_ ?]. congruence.
  - right. split; [done|]. rewrite <- !is_set_spec. intros [? _]. congruence.
  - right. split; [done|]. rewrite <- !is_set_spec. intros [? _]. congruence.
Qed.

(** The "ordered range" rule reports a violation exactly when both bounds
    are timestamps and before is strictly earlier than after. *)
Lemma check_rule_ordered_range v (before after : string) :
  check_rule v (OrderedRange before after) = [BeforeLessThanAfter before after]
    ∧ (∃ tb ta, v !! before = Some (VTime tb) ∧ v !! after = Some (VTime ta)
                ∧ (tb < ta)%Z)
  ∨ check_rule v (OrderedRange before after) = []
    ∧ ¬ (∃ tb ta, v !! before = Some (VTime tb) ∧ v !! after = Some (VTime ta)
                  ∧ (tb < ta)%Z).
Proof.
  cbn.
  destruct (v !! before) as [[| | |tb]|] eqn:Hb;
    try (right; split; [done|]; by intros (? & ? & ? & _)).
  destruct (v !! after) as [[| | |ta]|] eqn:Ha;
    try (right; split; [done|]; by intros (? & ? & _ & ? & _)).
  destruct (Z.ltb_spec tb ta) as [Hlt|Hge].
  - left. split; [done|]. by exists tb, ta.
  - right. split; [done|]. intros (tb' & ta' & [= <-] & [= <-] & Hlt). lia.
Qed.

(** A violation in the report fails the construction with that report. *)
Lemma construct_reports T v (x : violation) :
  x ∈ validate T v →
  construct T v = inl (ValidationError (type_name T) (validate T v)).
Proof.
  intros Hin. apply construct_invalid.
  intros Hnil. rewrite Hnil in Hin. by apply elem_of_nil in Hin.
Qed.

(** A failed construction reports what [validate] found. *)
Lemma construct_error_inv T v (e : error) :
  construct T v = inl e →
  e = ValidationError (type_name T) (validate T v) ∧ validate T v ≠ [].
Proof.
  unfold construct. destruct (validate T v) as [|x l]; [done|].
  by intros [= <-].
Qed.

(** Where a violation of a rule instance in the report comes from. *)
Lemma elem_of_validate_rule T v (x : violation) :
  x ≠ NoOperator →
  x ∈ validate T v ↔ ∃ r, r ∈ rules T ∧ x ∈ check_rule v r.
Proof.
  intros Hx. unfold validate. rewrite elem_of_app, !list_elem_of_In, in_flat_map.
  setoid_rewrite <- list_elem_of_In. split.
  - intros [Hone|Hrule]; [|done].
    unfold check_at_least_one_operator in Hone.
    destruct (existsb _ _).
    + by apply elem_of_nil in Hone.
    + by apply list_elem_of_singleton in Hone.
  - intros Hrule. by right.
Qed.

(** C9: on a filter type that declares an inclusion operator and an
    is-null flag, construction fails with [ValidationError] whenever both
    fields are set, whatever the inclusion list holds (the empty list
    included); the error names the two fields. *)
Theorem construct_inclusion_with_is_null T v (inclusion is_null : string) :
  inclusion ∈ operators T → kind_of T inclusion = Inclusion →
  is_null ∈ operators T → kind_of T is_null = IsNull →
  is_Some (v !! inclusion) →
  is_Some (v !! is_null) →
  ∃ violated,
    construct T v = inl (ValidationError (type_name T) violated)
    ∧ InclusionWithIsNull inclusion is_null ∈ violated.
Proof.
  intros Hi Hik Hn Hnk Hincl Hnull. exists (validate T v).
  assert (InclusionWithIsNull inclusion is_null ∈ validate T v) as Hin.
  { apply elem_of_validate_rule; [done|].
    exists (Exclusive inclusion is_null). split; [by apply elem_of_rules|].
    destruct (check_rule_exclusive v inclusion is_null) as [[-> _]|[_ Hno]].
    - by left.
    - by destruct Hno. }
  split; [|done]. by apply (construct_reports T v _ Hin).
Qed.

(** Construction fails exactly when one of the three rules is violated. *)
Lemma construct_fails_iff T v :
  (∃ e, construct T v = inl e) ↔
    (∀ f, f ∈ operators T → v !! f = None)
    ∨ (∃ i n, (i ∈ operators T ∧ kind_of T i = Inclusion)
              ∧ (n ∈ operators T ∧ kind_of T n = IsNull)
              ∧ is_Some (v !! i) ∧ is_Some (v !! n))
    ∨ (∃ b a tb ta, (b ∈ operators T ∧ kind_of T b = Before)
                    ∧ (a ∈ operators T ∧ kind_of T a = After)
                    ∧ v !! b = Some (VTime tb) ∧ v !! a = Some (VTime ta)
                    ∧ (tb < ta)%Z).
Proof.
  split.
  - intros [e [_ Hne]%construct_error_inv].
    destruct (check_at_least_one_operator_spec T v) as [[_ Hnull]|[Hone _]];
      [by left|].
    right. unfold validate in Hne. rewrite Hone in Hne. cbn in Hne.
    destruct (flat_map (check_rule v) (rules T)) as [|x l] eqn:Hflat; [done|].
    assert (In x (flat_map (check_rule v) (rules T))) as Hx
      by (rewrite Hflat; by left).
    apply in_flat_map in Hx as (r & Hr%list_elem_of_In & Hx).
    apply elem_of_rules in Hr. destruct r as [i n|b a].
    + left. exists i, n.
      destruct (check_rule_exclusive v i n) as [[_ [? ?]]|[Hnil _]];
        [tauto|]. by rewrite Hnil in Hx.
    + right. exists b, a.
      destruct (check_rule_ordered_range v b a)
        as [[_ (tb & ta & ? & ? & ?)]|[Hnil _]];
        [exists tb, ta; tauto|]. by rewrite Hnil in Hx.
  - intros [Hnull|[(i & n & Hi & Hn & Hsi & Hsn)|(b & a & tb & ta & Hb & Ha & Hvb & Hva & Hlt)]].
    + eexists. apply (construct_reports T v NoOperator).
      unfold validate. apply elem_of_app. left.
      destruct (check_at_least_one_operator_spec T v) as [[-> _]|[_ (f & Hf & Hset)]];
        [by left|].
      rewrite (Hnull f Hf) in Hset. by destruct Hset.
    + eexists. apply (construct_reports T v (InclusionWithIsNull i n)).
      apply elem_of_validate_rule; [done|]. exists (Exclusive i n).
      split; [by apply elem_of_rules|].
      destruct (check_rule_exclusive v i n) as [[-> _]|[_ Hno]]; [by left|].
      by destruct Hno.
    + eexists. apply (construct_reports T v (BeforeLessThanAfter b a)).
      apply elem_of_validate_rule; [done|]. exists (OrderedRange b a).
      split; [by apply elem_of_rules|].
      destruct (check_rule_ordered_range v b a) as [[-> _]|[_ Hno]]; [by left|].
      destruct Hno. by exists tb, ta.
Qed.

(** C8 (amended): on a filter type that declares a before/after timestamp
    pair, construction fails with a [ValidationError] that names the range
    rule on the pair exactly when both bounds are set and before is
    strictly earlier than after; it fails at all exactly when some declared
    pair is so ordered, or every constraint field is null, or a declared
    inclusion operator and a declared is-null flag are both set; with both
    bounds set, before equal to or later than after and every other field
    null it succeeds. *)
Theorem construct_ordered_range T v (before after : string) :
  before ∈ operators T → kind_of T before = Before →
  after ∈ operators T → kind_of T after = After →
  ((∃ violated,
      construct T v = inl (ValidationError (type_name T) violated)
      ∧ BeforeLessThanAfter before after ∈ violated)
   ↔ ∃ tb ta, v !! before = Some (VTime tb) ∧ v !! after = Some (VTime ta)
              ∧ (tb < ta)%Z)
  ∧ ((∃ e, construct T v = inl e) ↔
       (∀ f, f ∈ operators T → v !! f = None)
       ∨ (∃ i n, (i ∈ operators T ∧ kind_of T i = Inclusion)
                 ∧ (n ∈ operators T ∧ kind_of T n = IsNull)
                 ∧ is_Some (v !! i) ∧ is_Some (v !! n))
       ∨ (∃ b a tb ta, (b ∈ operators T ∧ kind_of T b = Before)
                       ∧ (a ∈ operators T ∧ kind_of T a = After)
                       ∧ v !! b = Some (VTime tb) ∧ v !! a = Some (VTime ta)
                       ∧ (tb < ta)%Z))
  ∧ (∀ tb ta, v !! before = Some (VTime tb) → v !! after = Some (VTime ta) →
     (ta ≤ tb)%Z →
     (∀ f, f ∈ operators T → f ≠ before → f ≠ after → v !! f = None) →
     construct T v = inr {| filter_type_of := T; filter_fields := v |}).
Proof.
  intros Hb Hbk Ha Hak. split; [|split; [apply construct_fails_iff|]].
  - split.
    + intros (violated & [Heq _]%construct_error_inv & Hin).
      injection Heq as ->.
      apply elem_of_validate_rule in Hin as (r & _ & Hin); [|done].
      destruct r as [i n|b a].
      * destruct (check_rule_exclusive v i n) as [[Heq _]|[Heq _]];
          rewrite Heq in Hin; [|by apply elem_of_nil in Hin].
        by apply list_elem_of_singleton in Hin.
      * destruct (check_rule_ordered_range v b a) as [[Heq Hlt]|[Heq _]];
          rewrite Heq in Hin; [|by apply elem_of_nil in Hin].
        apply list_elem_of_singleton in Hin. by injection Hin as <- <-.
    + intros (tb & ta & Hvb & Hva & Hlt). exists (validate T v).
      assert (BeforeLessThanAfter before after ∈ validate T v) as Hin.
      { apply elem_of_validate_rule; [done|]. exists (OrderedRange before after).
        split; [by apply elem_of_rules|].
        destruct (check_rule_ordered_range v before after) as [[-> _]|[_ Hno]];
          [by left|]. destruct Hno. by exists tb, ta. }
      split; [|done]. by apply (construct_reports T v _ Hin).
  - intros tb ta Hvb Hva Hle Hothers.
    destruct (construct T v) as [e|x] eqn:Hc.
    + exfalso.
      assert (∃ e, construct T v = inl e) as Hfail by by exists e.
      apply construct_fails_iff in Hfail
        as [Hnull|[(i & n & [Hi Hik] & _ & [x Hx] & _)
                  |(b & a & tb' & ta' & [Hb' Hbk'] & [Ha' Hak'] & Hvb' & Hva' & Hlt)]].
      * rewrite (Hnull before Hb) in Hvb. done.
      * rewrite Hothers in Hx; [done..|congruence|congruence].
      * destruct (decide (b = before)) as [->|Hnb].
        -- destruct (decide (a = after)) as [->|Hna].
           ++ rewrite Hvb in Hvb'. rewrite Hva in Hva'.
              injection Hvb' as <-. injection Hva' as <-. lia.
           ++ rewrite Hothers in Hva'; [done..|congruence|done].
        -- rewrite Hothers in Hvb'; [done..|congruence].
    + unfold construct in Hc. destruct (validate T v); [|done].
      by injection Hc as <-.
Qed.

End facts.

(** ** The filters of the tests *)

(** [MyNewFilter()] and [MyNewFilter(foo_=1)]. *)
Lemma construct_at_least_one_operator_witness :
  construct MyNewFilter ∅ = inl (ValidationError "MyNewFilter" [NoOperator])
  ∧ construct MyNewFilter {["foo_" := VInt 1]}
    = inr {| filter_type_of := MyNewFilter;
             filter_fields := {["foo_" := VInt 1]} |}.
Proof.
  split.
  - refine (proj1 (construct_at_least_one_operator MyNewFilter ∅ _) _);
      [reflexivity|done].
  - refine (proj2 (construct_at_least_one_operator MyNewFilter
                     {["foo_" := VInt 1]} _) "foo_" _ _ _).
    + reflexivity.
    + cbn. set_solver.
    + by eexists.
    + intros g Hg [x Hx]. cbn in Hg.
      apply elem_of_cons in Hg as [->|Hg]; [done|].
      apply elem_of_cons in Hg as [->|Hg]; [done|].
      by apply elem_of_nil in Hg.
Defined.

(** [x ∈ [a; b; ...]] as a goal. *)
Ltac member := cbn; repeat (first [by left | right]).

(** [FlowFilterTags(all_=[], is_null_=True)]. *)
Lemma construct_inclusion_with_is_null_witness :
  ∃ violated,
    construct FlowFilterTags (<["all_" := VList []]> {["is_null_" := VBool true]})
    = inl (ValidationError "FlowFilterTags" violated)
    ∧ InclusionWithIsNull "all_" "is_null_" ∈ violated.
Proof.
  refine (construct_inclusion_with_is_null FlowFilterTags
            (<["all_" := VList []]> {["is_null_" := VBool true]})
            "all_" "is_null_" _ _ _ _ _ _).
  - member.
  - reflexivity.
  - member.
  - reflexivity.
  - by eexists.
  - by eexists.
Defined.

(** Equal bounds, before one day earlier than after, before one day later. *)
Lemma construct_ordered_range_witness :
  let now := 1000%Z in
  construct FlowRunFilterStartTime
    (<["before_" := VTime now]> {["after_" := VTime now]})
  = inr {| filter_type_of := FlowRunFilterStartTime;
           filter_fields := <["before_" := VTime now]> {["after_" := VTime now]} |}
  ∧ (∃ violated,
       construct FlowRunFilterStartTime
         (<["before_" := VTime now]> {["after_" := VTime (now + one_day)]})
       = inl (ValidationError "FlowRunFilterStartTime" violated)
       ∧ BeforeLessThanAfter "before_" "after_" ∈ violated)
  ∧ construct FlowRunFilterStartTime
      (<["before_" := VTime (now + one_day)]> {["after_" := VTime now]})
    = inr {| filter_type_of := FlowRunFilterStartTime;
             filter_fields :=
               <["before_" := VTime (now + one_day)]> {["after_" := VTime now]} |}.
Proof.
  intros now.
  assert (∀ (v : fields) (f : string), f ∈ operators FlowRunFilterStartTime →
                 f ≠ "before_" → f ≠ "after_" → v !! f = None)
    as Hothers.
  { intros v f Hf Hnb Hna. cbn in Hf.
    apply elem_of_cons in Hf as [->|Hf]; [done|].
    apply elem_of_cons in Hf as [->|Hf]; [done|].
    by apply elem_of_nil in Hf. }
  split; [|split].
  - refine (proj2 (proj2 (construct_ordered_range FlowRunFilterStartTime _
                            "before_" "after_" _ _ _ _)) now now _ _ _ _);
      [member|reflexivity|member|reflexivity|reflexivity|reflexivity|lia
      |apply Hothers].
  - refine (proj2 (proj1 (construct_ordered_range FlowRunFilterStartTime _
                            "before_" "after_" _ _ _ _)) _);
      [member|reflexivity|member|reflexivity|].
    exists now, (now + one_day)%Z.
    split; [reflexivity|]. split; [reflexivity|]. unfold one_day. lia.
  - refine (proj2 (proj2 (construct_ordered_range FlowRunFilterStartTime _
                            "before_" "after_" _ _ _ _)) (now + one_day)%Z now _ _ _ _);
      [member|reflexivity|member|reflexivity|reflexivity|reflexivity
      |unfold one_day; lia|apply Hothers].
Defined.

(** C8, as stated, fails on two counts.  On [FlowRunFilterStartTime] with
    neither bound set construction fails, by the "at least one operator"
    rule, although it is not the case that both bounds are set with before
    earlier than after.  On a type that also declares an inclusion operator
    and an is-null flag, construction with before equal to after fails when
    those two are set as well. *)
Lemma construct_ordered_range_counterexample :
  (construct FlowRunFilterStartTime ∅
   = inl (ValidationError "FlowRunFilterStartTime" [NoOperator])
   ∧ ¬ (∃ tb ta, (∅ : fields) !! "before_" = Some (VTime tb)
                 ∧ (∅ : fields) !! "after_" = Some (VTime ta) ∧ (tb < ta)%Z))
  ∧ construct TaggedRangeFilter
      (<["before_" := VTime 1000]> (<["after_" := VTime 1000]>
         (<["all_" := VList ["foo"]]> {["is_null_" := VBool true]})))
    = inl (ValidationError "TaggedRangeFilter"
             [InclusionWithIsNull "all_" "is_null_"]).
Proof.
  split; [split; [reflexivity|]|reflexivity].
  by intros (tb & ta & Hb & _).
Qed.

End FilterFacts.
